(** * SimpleFSDirectory: file-backed index input and output

    A shallow embedding of [src/core/store/SimpleFSDirectory.cpp]
    (Lucene++): the raw input handle [InputFile], the buffered input stream
    [SimpleFSIndexInput] with its bounded-chunk fill loop and its clones,
    the raw output handle [OutputFile] and the buffered output stream
    [SimpleFSIndexOutput].

    Conventions.
    - [int32_t] and [int64_t] values are integers of [Z]; every arithmetic
      operation the source performs on them is wrapped ([wrap32], [wrap64]).
    - The file system is a finite map from paths to byte sequences.
    - [std::ifstream] and [std::ofstream] are modelled by small records
      carrying the state bits of [std::ios_base] (module [ifstream],
      module [ofstream]).
    - Objects held through shared pointers and aliased by several owners
      (the [InputFile] of a stream and of its clones) live in a store
      indexed by locations; a pointer is an [option loc], [None] being the
      null pointer.
    - Methods run in the monad [M]: they read and update the [World] and
      finish by returning, by throwing, by dereferencing a null pointer or,
      for the fill loop, by exhausting the fuel that bounds its iterations.
    - Every call on a raw input handle is recorded in the world's log, so
      that "performs no I/O" is a statement about the log. *)

From Stdlib Require Import ZArith Lia Bool.
From stdpp Require Import base gmap strings list.

Local Open Scope Z_scope.

(** ** Fixed-width integers *)

Definition INT32_MAX : Z := 2147483647.
Definition INT32_MIN : Z := -2147483648.
Definition INT64_MAX : Z := 9223372036854775807.
Definition INT64_MIN : Z := -9223372036854775808.

(** Two's complement reduction of an integer to 32 and to 64 bits. *)
Definition wrap32 (z : Z) : Z := (z + 2 ^ 31) mod 2 ^ 32 - 2 ^ 31.
Definition wrap64 (z : Z) : Z := (z + 2 ^ 63) mod 2 ^ 64 - 2 ^ 63.

Definition int32_ok (z : Z) : Prop := INT32_MIN <= z <= INT32_MAX.
Definition int64_ok (z : Z) : Prop := INT64_MIN <= z <= INT64_MAX.

Abbreviation byte := Byte.byte.

(** ** Exceptions and outcomes *)

(** The exceptions the file throws.  [IOException()] without a message
    carries the empty string. *)
Inductive Exception : Type :=
  | FileNotFoundException (msg : string)
  | IOException (msg : string).

Inductive Outcome (A : Type) : Type :=
  | Returns (a : A)
  | Throws (e : Exception)
  | NullDeref
  | OutOfFuel.
Arguments Returns {A} a.
Arguments Throws {A} e.
Arguments NullDeref {A}.
Arguments OutOfFuel {A}.

(** ** The file system *)

(** [files] maps each existing path to its content; a path of [readonly]
    cannot be opened for writing. *)
Record FileSystem : Type := mkFileSystem {
  files : gmap string (list byte);
  readonly : gset string
}.

Definition set_files (f : gmap string (list byte)) (fs : FileSystem) : FileSystem :=
  {| files := f; readonly := readonly fs |}.

(** Functions of [FileUtils], which is not part of the file. *)
Module FileUtils.

(** Modelled from the spec: [FileUtils::fileExists] is not part of the
    file; section 6 gives its contract, [fileExists(path) -> bool]. *)
Definition fileExists (fs : FileSystem) (path : string) : bool :=
  bool_decide (is_Some (files fs !! path)).

(** Modelled from the spec: [FileUtils::fileLength] is not part of the
    file; section 6 gives its contract, [fileLength(path) -> int64], the
    size of the file.  The length of a path that does not exist is taken to
    be 0. *)
Definition fileLength (fs : FileSystem) (path : string) : Z :=
  match files fs !! path with
  | Some d => Z.of_nat (length d)
  | None => 0
  end.

(** Modelled from the spec: [FileUtils::setFileLength] is not part of the
    file; by sections 4.3 and 6, [setFileLength(path, n)] truncates or
    extends the file to [n] bytes (zero-filled here). *)
Definition setFileLength (fs : FileSystem) (path : string) (n : Z) : FileSystem :=
  match files fs !! path with
  | Some d =>
      let k := Z.to_nat n in
      set_files (<[path := take k d ++ replicate (k - length d)%nat Byte.x00]> (files fs)) fs
  | None => fs
  end.

End FileUtils.

(** Three constants are defined outside the file and are parameters here:
    [FileReader::FILE_EOF] and [FileReader::FILE_ERROR], to which
    [InputFile::FILE_EOF] and [InputFile::FILE_ERROR] are set, and the
    default buffer size [BUFFER_SIZE] of [BufferedIndexInput].  By section
    4.1 of the spec the first two are outcomes "distinguished" from the
    counts a read returns, which are not negative; where a statement needs
    it, it assumes them negative. *)
Class ExternalConstants : Type := {
  FILE_EOF : Z;
  FILE_ERROR : Z;
  BUFFER_SIZE : Z
}.

(** ** [std::ifstream] *)

Module ifstream.

Record t : Type := mk {
  is_open : bool;
  badbit : bool;
  failbit : bool;
  eofbit : bool;
  data : list byte;      (* content of the opened file *)
  gpos : Z;              (* get position *)
  gcount : Z             (* characters extracted by the last read *)
}.

(** [good()] holds when no state bit is set; [fail()] when [failbit] or
    [badbit] is; [eof()] when [eofbit] is. *)
Definition good (s : t) : bool := negb (badbit s || failbit s || eofbit s).
Definition fail (s : t) : bool := failbit s || badbit s.
Definition eof (s : t) : bool := eofbit s.

(** The constructor [ifstream(path, binary | in)]: opening a path that
    does not exist leaves the stream closed with [failbit] set. *)
Definition open (fs : FileSystem) (path : string) : t :=
  match files fs !! path with
  | Some d => mk true false false false d 0 0
  | None => mk false false true false [] 0 0
  end.

(** [seekg(pos)] clears [eofbit]; then, unless [fail()], it repositions
    the buffer, and sets [failbit] when that is impossible (stream not
    open, negative offset).  Seeking beyond the end of a file is allowed.
    A file system also refuses the offsets beyond the greatest size it
    gives a file; the model has no such limit, and what is stated of
    positions beyond the end of a file holds below that limit. *)
Definition seekg (pos : Z) (s : t) : t :=
  let s := mk (is_open s) (badbit s) (failbit s) false (data s) (gpos s) (gcount s) in
  if fail s then s
  else if is_open s && (0 <=? pos) then
    mk (is_open s) (badbit s) (failbit s) (eofbit s) (data s) pos (gcount s)
  else
    mk (is_open s) (badbit s) true (eofbit s) (data s) (gpos s) (gcount s).

(** [read(s, n)]: when the stream is not [good()] it sets [failbit] and
    extracts nothing; otherwise it extracts characters until [n] are
    stored or the end of the file occurs, in which case it sets
    [eofbit] and [failbit]. *)
Definition read (n : Z) (s : t) : t * list byte :=
  if good s then
    let got := take (Z.to_nat n) (drop (Z.to_nat (gpos s)) (data s)) in
    let k := Z.of_nat (length got) in
    let short := k <? n in
    (mk (is_open s) (badbit s) (failbit s || short) (eofbit s || short)
        (data s) (gpos s + k) k, got)
  else
    (mk (is_open s) (badbit s) true (eofbit s) (data s) (gpos s) 0, []).

End ifstream.

(** Writing [bs] into the caller's buffer [b] from index [offset] on
    ([(char* )b + offset]); the buffer is the caller's and is not resized.
    The source leaves it to the caller that the bytes fit, that is
    [0 <= offset] and [offset + length bs <= length b]; outside that range
    the C++ code writes outside the buffer, which a list cannot show, and
    the statements about the content of a buffer assume the range. *)
Definition store_bytes (b : list byte) (offset : Z) (bs : list byte) : list byte :=
  if offset <? 0 then b else list_inserts (Z.to_nat offset) bs b.

(** The bytes of [d] from position [p] on, [n] of them. *)
Definition slice (d : list byte) (p n : Z) : list byte :=
  take (Z.to_nat n) (drop (Z.to_nat p) d).

(** ** [InputFile]: the raw input handle *)

Module InputFile.

Record t : Type := mk {
  path : string;
  position : Z;          (* int64_t *)
  length : Z             (* int64_t *)
}.

(** [InputFile::InputFile(path)] *)
Definition new (fs : FileSystem) (path : string) : Outcome t :=
  if negb (FileUtils.fileExists fs path) then
    Throws (FileNotFoundException path)
  else
    Returns (mk path 0 (FileUtils.fileLength fs path)).

(** [InputFile::setPosition]: the assignment comes first, the range test
    second; the handle that results is returned together with the
    outcome. *)
Definition setPosition (position : Z) (this : t) : Outcome unit * t :=
  let this := mk (path this) position (length this) in
  if (position <? 0) || (position >? length this) then
    (Throws (IOException EmptyString), this)
  else
    (Returns tt, this).

Definition getPosition (this : t) : Z := position this.

Definition getLength (this : t) : Z := length this.

(** [InputFile::read]: the file is opened afresh and positioned; the
    result is the count of bytes read or one of the two sentinels.  The
    stream throws no exception of its own (its exception mask is empty),
    so the [catch] clause has no counterpart. *)
Definition read `{ExternalConstants} (fs : FileSystem) (this : t)
    (b : list byte) (offset length : Z) : Z * t * list byte :=
  let file := ifstream.open fs (path this) in
  let file := ifstream.seekg (position this) file in
  if negb (ifstream.is_open file) || negb (ifstream.good file) then
    (FILE_ERROR, this, b)
  else if ifstream.eof file then
    (FILE_EOF, this, b)
  else
    let '(file, bytes) := ifstream.read length file in
    let readCount := wrap32 (ifstream.gcount file) in
    (readCount,
     mk (path this) (wrap64 (position this + readCount)) (InputFile.length this),
     store_bytes b offset bytes).

(** [InputFile::close]: NOOP *)
Definition close (this : t) : t := this.

(** [InputFile::isValid] *)
Definition isValid (fs : FileSystem) (this : t) : bool :=
  let file := ifstream.open fs (path this) in
  let file := ifstream.seekg (position this) file in
  ifstream.is_open file && ifstream.good file.

End InputFile.

(** ** The world: file system, store of raw input handles, call log *)

Abbreviation loc := nat.

(** One entry per call on a raw input handle. *)
Inductive Event : Type :=
  | CallNew (path : string)
  | CallSetPosition (l : loc) (position : Z)
  | CallRead (l : loc) (offset length result : Z)
  | CallIsValid (l : loc)
  | CallClose (l : loc).

Record World : Type := mkWorld {
  fs : FileSystem;
  heap : gmap loc InputFile.t;
  log : list Event
}.

Definition M (A : Type) : Type := World -> Outcome A * World.

Definition ret {A} (a : A) : M A := fun w => (Returns a, w).

Definition throw {A} (e : Exception) : M A := fun w => (Throws e, w).

Definition bind {A B} (m : M A) (f : A -> M B) : M B :=
  fun w =>
    match m w with
    | (Returns a, w') => f a w'
    | (Throws e, w') => (Throws e, w')
    | (NullDeref, w') => (NullDeref, w')
    | (OutOfFuel, w') => (OutOfFuel, w')
    end.

Notation "x <- m ;; k" := (bind m (fun x => k))
  (at level 100, m at next level, right associativity).
Notation "m ;;; k" := (bind m (fun _ => k))
  (at level 100, right associativity).

(** [p->m(...)] for a shared pointer [p] to a raw input handle: the null
    pointer (and a location that holds nothing) cannot be dereferenced. *)
Definition deref (p : option loc) : M (loc * InputFile.t) :=
  fun w =>
    match p with
    | Some l =>
        match heap w !! l with
        | Some h => (Returns (l, h), w)
        | None => (NullDeref, w)
        end
    | None => (NullDeref, w)
    end.

Definition record (e : Event) : M unit :=
  fun w => (Returns tt, mkWorld (fs w) (heap w) (log w ++ [e])).

Definition put (l : loc) (h : InputFile.t) : M unit :=
  fun w => (Returns tt, mkWorld (fs w) (<[l := h]> (heap w)) (log w)).

Definition call_getPosition (p : option loc) : M Z :=
  lh <- deref p ;;
  let '(l, h) := lh in ret (InputFile.getPosition h).

Definition call_getLength (p : option loc) : M Z :=
  lh <- deref p ;;
  let '(l, h) := lh in ret (InputFile.getLength h).

Definition call_setPosition (p : option loc) (position : Z) : M unit :=
  lh <- deref p ;;
  let '(l, h) := lh in
  record (CallSetPosition l position) ;;;
  let '(r, h') := InputFile.setPosition position h in
  put l h' ;;;
  match r with
  | Returns _ => ret tt
  | Throws e => throw e
  | NullDeref => fun w => (NullDeref, w)
  | OutOfFuel => fun w => (OutOfFuel, w)
  end.

Definition call_read `{ExternalConstants} (p : option loc) (b : list byte)
    (offset length : Z) : M (Z * list byte) :=
  lh <- deref p ;;
  let '(l, h) := lh in
  fun w =>
    let '(i, h', b') := InputFile.read (fs w) h b offset length in
    (Returns (i, b'),
     mkWorld (fs w) (<[l := h']> (heap w)) (log w ++ [CallRead l offset length i])).

Definition call_isValid (p : option loc) : M bool :=
  lh <- deref p ;;
  let '(l, h) := lh in
  record (CallIsValid l) ;;;
  fun w => (Returns (InputFile.isValid (fs w) h), w).

Definition call_close (p : option loc) : M unit :=
  lh <- deref p ;;
  let '(l, h) := lh in
  record (CallClose l) ;;;
  put l (InputFile.close h).

(** [newLucene<InputFile>(path)]: the handle is built and stored at a
    location not in use. *)
Definition call_new (path : string) : M (option loc) :=
  record (CallNew path) ;;;
  fun w =>
    match InputFile.new (fs w) path with
    | Returns h =>
        let l := fresh (dom (heap w)) in
        (Returns (Some l), mkWorld (fs w) (<[l := h]> (heap w)) (log w))
    | Throws e => (Throws e, w)
    | NullDeref => (NullDeref, w)
    | OutOfFuel => (OutOfFuel, w)
    end.

(** ** [BufferedIndexInput]: the base class of the input stream *)

(** The base class [BufferedIndexInput] is not part of the file. *)
Module BufferedIndexInput.

(** Modelled from the spec: the state of [BufferedIndexInput], which is not
    part of the file.  By section 3 a buffered input stream has a buffer of
    fixed [bufferSize] and the logical position [filePointer], each
    instance its own. *)
Record t : Type := mk {
  bufferSize : Z;
  buffer : list byte;
  filePointer : Z          (* int64_t *)
}.

(** Modelled from the spec: the constructor [BufferedIndexInput(bufferSize)],
    not part of the file; a stream starts with an empty buffer at position
    0 (section 4.1: a newly opened handle has [position = 0]). *)
Definition new (bufferSize : Z) : t := mk bufferSize [] 0.

(** Modelled from the spec: [BufferedIndexInput::getFilePointer], not part
    of the file; it is "this stream's own logical position" of section 4.2. *)
Definition getFilePointer (this : t) : Z := filePointer this.

(** Modelled from the spec: what [BufferedIndexInput::seek], not part of
    the file, does to the state of the base class; by section 4.2 [seek] is
    "purely a logical position update". *)
Definition seek (pos : Z) (this : t) : t := mk (bufferSize this) (buffer this) pos.

(** Modelled from the spec: [BufferedIndexInput::clone], not part of the
    file, filling the state of [other]; by section 4.2 the clone has "its
    own buffer and its own copy of the current logical position". *)
Definition clone (this other : t) : t := mk (bufferSize this) [] (getFilePointer this).

End BufferedIndexInput.

(** ** [SimpleFSIndexInput]: the buffered input stream *)

Module SimpleFSIndexInput.

Record t : Type := mk {
  base : BufferedIndexInput.t;
  file : option loc;       (* InputFilePtr *)
  path : string;
  chunkSize : Z;           (* int32_t *)
  isClone : bool
}.

(** [SimpleFSIndexInput::SimpleFSIndexInput()]: the base class is built
    with its default buffer size. *)
Definition default `{ExternalConstants} : t :=
  mk (BufferedIndexInput.new BUFFER_SIZE) None EmptyString 0 false.

(** [SimpleFSIndexInput::SimpleFSIndexInput(path, bufferSize, chunkSize)] *)
Definition new (path : string) (bufferSize chunkSize : Z) : M t :=
  file <- call_new path ;;
  ret (mk (BufferedIndexInput.new bufferSize) file path chunkSize false).

Definition getFilePointer (this : t) : Z :=
  BufferedIndexInput.getFilePointer (base this).

(** The [while] loop of [readInternal].  The test [total < length] comes
    before the fuel is looked at: a loop that does not iterate needs none. *)
Fixpoint readInternal_loop `{ExternalConstants} (fuel : nat) (this : t)
    (b : list byte) (offset length total : Z) : M (list byte) :=
  if total <? length then
    match fuel with
    | O => fun w => (OutOfFuel, w)
    | S fuel =>
        let readLength :=
          if wrap32 (total + chunkSize this) >? length
          then wrap32 (length - total) else chunkSize this in
        r <- call_read (file this) b (wrap32 (offset + total)) readLength ;;
        let '(i, b) := r in
        if i =? FILE_EOF then
          throw (IOException "Read past EOF")
        else if i =? FILE_ERROR then
          throw (IOException ("Failed to read from file: " +:+ path this))
        else
          readInternal_loop fuel this b offset length (wrap32 (total + i))
    end
  else ret b.

(** [SimpleFSIndexInput::readInternal]; the result is the buffer [b] after
    the transfers.  The lock on the handle has no counterpart: the model
    runs one call at a time. *)
Definition readInternal `{ExternalConstants} (fuel : nat) (this : t)
    (b : list byte) (offset length : Z) : M (list byte) :=
  let position := getFilePointer this in
  p <- call_getPosition (file this) ;;
  (if negb (position =? p) then call_setPosition (file this) position else ret tt) ;;;
  readInternal_loop fuel this b offset length 0.

(** [SimpleFSIndexInput::seekInternal]: the body is empty. *)
Definition seekInternal (pos : Z) (this : t) : M unit := ret tt.

(** Modelled from the spec: [BufferedIndexInput::seek], not part of the
    file, with the hook [seekInternal] of this class; by section 4.2 it is
    "purely a logical position update". *)
Definition seek (pos : Z) (this : t) : M t :=
  seekInternal pos this ;;;
  ret (mk (BufferedIndexInput.seek pos (base this)) (file this) (path this)
          (chunkSize this) (isClone this)).

(** [SimpleFSIndexInput::close] *)
Definition close (this : t) : M unit :=
  if negb (isClone this) then call_close (file this) else ret tt.

(** [SimpleFSIndexInput::isValid] *)
Definition isValid (this : t) : M bool := call_isValid (file this).

(** [SimpleFSIndexInput::clone]: [other] is the object to fill, a default
    constructed stream when it is null. *)
Definition clone `{ExternalConstants} (other : option t) (this : t) : M t :=
  let target := match other with Some o => o | None => default end in
  let clone := BufferedIndexInput.clone (base this) (base target) in
  ret (mk clone (file this) (path this) (chunkSize this) true).

(** [SimpleFSIndexInput::length] *)
Definition length (this : t) : M Z := call_getLength (file this).

End SimpleFSIndexInput.

(** ** [std::ofstream] *)

Module ofstream.

Record t : Type := mk {
  is_open : bool;
  badbit : bool;
  failbit : bool;
  eofbit : bool;
  target : string;         (* the path the stream was opened on *)
  ppos : Z                 (* put position *)
}.

Definition good (s : t) : bool := negb (badbit s || failbit s || eofbit s).
Definition bad (s : t) : bool := badbit s.
Definition fail (s : t) : bool := failbit s || badbit s.
Definition eof (s : t) : bool := eofbit s.

(** The constructor [ofstream(path, binary | out)] creates the file or
    truncates it; on a path that cannot be written it leaves the stream
    closed with [failbit] set. *)
Definition open (fs : FileSystem) (path : string) : t * FileSystem :=
  if bool_decide (path ∈ readonly fs) then
    (mk false false true false path 0, fs)
  else
    (mk true false false false path 0, set_files (<[path := []]> (files fs)) fs).

(** [write(s, n)], where [mem] is the memory [s] points to, at the put
    position: bytes in place are overwritten, the file grows as needed.  A
    stream that is not [good()] gets [failbit]; a negative count, or a
    stream that is not open, gives [badbit] and writes nothing.  When the
    file has been removed from the directory the write succeeds all the
    same, into a file that no path names any more.  The caller sees to it
    that [mem] holds [n] bytes; of a shorter [mem] the model takes what
    there is.
    The model writes through: the file shows the bytes at once, where a
    real stream may keep them until [flush()]; the statements look at a
    file only after a flush. *)
Definition write (mem : list byte) (n : Z) (s : t) (fs : FileSystem) : t * FileSystem :=
  if good s then
    if (0 <=? n) && is_open s then
      let bs := take (Z.to_nat n) mem in
      let s' := mk (is_open s) (badbit s) (failbit s) (eofbit s) (target s)
                  (ppos s + Z.of_nat (length bs)) in
      match files fs !! target s with
      | Some d =>
          let p := Z.to_nat (ppos s) in
          let d' := take p d ++ replicate (p - length d)%nat Byte.x00
                      ++ bs ++ drop (p + length bs)%nat d in
          (s', set_files (<[target s := d']> (files fs)) fs)
      | None => (s', fs)
      end
    else
      (mk (is_open s) true (failbit s) (eofbit s) (target s) (ppos s), fs)
  else
    (mk (is_open s) (badbit s) true (eofbit s) (target s) (ppos s), fs).

(** [seekp(pos)] *)
Definition seekp (pos : Z) (s : t) : t :=
  if fail s then s
  else if is_open s && (0 <=? pos) then
    mk (is_open s) (badbit s) (failbit s) (eofbit s) (target s) pos
  else
    mk (is_open s) (badbit s) true (eofbit s) (target s) (ppos s).

(** [flush()]: the model writes through (see [write]), nothing is pending. *)
Definition flush (s : t) : t := s.

End ofstream.

(** [std::wostream << bool] *)
Definition show_bool (b : bool) : string := if b then "1" else "0".

(** ** [OutputFile]: the raw output handle *)

Module OutputFile.

Record t : Type := mk {
  path : string;
  file : option ofstream.t       (* ofstreamPtr; [None] once reset *)
}.

(** [OutputFile::isValid] *)
Definition isValid (this : t) : bool :=
  match file this with
  | Some f => ofstream.is_open f && ofstream.good f
  | None => false
  end.

(** [OutputFile::OutputFile(path)] *)
Definition new (path : string) : M t :=
  fun w =>
    let '(f, fs') := ofstream.open (fs w) path in
    let this := mk path (Some f) in
    let w' := mkWorld fs' (heap w) (log w) in
    if negb (isValid this) then
      (Throws (IOException ("failed to open file for write: " +:+ path)), w')
    else (Returns this, w').

(** [OutputFile::write]: [file->is_open()] dereferences the stream pointer
    before anything else. *)
Definition write (b : list byte) (offset length : Z) (this : t) : M (bool * t) :=
  fun w =>
    match file this with
    | None => (NullDeref, w)
    | Some f =>
        if negb (ofstream.is_open f) then
          (Throws (IOException ("file is closed: " +:+ path this)), w)
        else
          let '(f', fs') := ofstream.write (drop (Z.to_nat offset) b) length f (fs w) in
          let w' := mkWorld fs' (heap w) (log w) in
          let this' := mk (path this) (Some f') in
          if negb (ofstream.good f') then
            (Throws (IOException ("error writing file: " +:+ path this
                       +:+ " bad=" +:+ show_bool (ofstream.bad f')
                       +:+ " fail=" +:+ show_bool (ofstream.fail f')
                       +:+ " eof=" +:+ show_bool (ofstream.eof f'))), w')
          else (Returns (true, this'), w')
    end.

(** [OutputFile::close]: [file.reset()] *)
Definition close (this : t) : t := mk (path this) None.

(** [OutputFile::setPosition] *)
Definition setPosition (position : Z) (this : t) : M t :=
  fun w =>
    match file this with
    | None => (NullDeref, w)
    | Some f =>
        let f' := ofstream.seekp position f in
        let this' := mk (path this) (Some f') in
        if negb (ofstream.good f') then (Throws (IOException EmptyString), w)
        else (Returns this', w)
    end.

(** [OutputFile::getLength] *)
Definition getLength (this : t) : M Z :=
  fun w => (Returns (FileUtils.fileLength (fs w) (path this)), w).

(** [OutputFile::setLength] *)
Definition setLength (length : Z) (this : t) : M unit :=
  fun w =>
    (Returns tt, mkWorld (FileUtils.setFileLength (fs w) (path this) length) (heap w) (log w)).

(** [OutputFile::flush] *)
Definition flush (this : t) : M t :=
  fun w =>
    match file this with
    | None => (NullDeref, w)
    | Some f =>
        if ofstream.is_open f then (Returns (mk (path this) (Some (ofstream.flush f))), w)
        else (Returns this, w)
    end.

End OutputFile.

(** ** [BufferedIndexOutput]: the base class of the output stream *)

(** The base class [BufferedIndexOutput] is not part of the file. *)
Module BufferedIndexOutput.

(** Modelled from the spec: the state of [BufferedIndexOutput], which is
    not part of the file.  By section 3 a buffered output stream has a
    buffer and the logical position [filePointer]. *)
Record t : Type := mk {
  buffer : list byte;      (* bytes written and not yet flushed *)
  filePointer : Z
}.

(** Modelled from the spec: the constructor of [BufferedIndexOutput], not
    part of the file; nothing is buffered at the start. *)
Definition new : t := mk [] 0.

(** Modelled from the spec: the state of [BufferedIndexOutput], not part of
    the file, once its pending bytes have gone through [flushBuffer]
    (section 4.4: [flushBuffer] is "invoked internally whenever the
    in-memory buffer fills or on explicit flush/seek/close"). *)
Definition flushed (this : t) : t :=
  mk [] (filePointer this + Z.of_nat (length (buffer this))).

(** Modelled from the spec: what [BufferedIndexOutput::seek], not part of
    the file, does to the logical position (section 4.4). *)
Definition seek (pos : Z) (this : t) : t := mk (buffer this) pos.

End BufferedIndexOutput.

(** ** [SimpleFSIndexOutput]: the buffered output stream *)

Module SimpleFSIndexOutput.

Record t : Type := mk {
  base : BufferedIndexOutput.t;
  file : option OutputFile.t;    (* OutputFilePtr; [None] once reset *)
  isOpen : bool
}.

(** [SimpleFSIndexOutput::SimpleFSIndexOutput(path)] *)
Definition new (path : string) : M t :=
  file <- OutputFile.new path ;;
  ret (mk BufferedIndexOutput.new (Some file) true).

(** [SimpleFSIndexOutput::flushBuffer] *)
Definition flushBuffer (b : list byte) (offset length : Z) (this : t) : M t :=
  match file this with
  | None => fun w => (NullDeref, w)
  | Some f =>
      r <- OutputFile.write b offset length f ;;
      f' <- OutputFile.flush (snd r) ;;
      ret (mk (base this) (Some f') (isOpen this))
  end.

(** Modelled from the spec: [BufferedIndexOutput::flush], not part of the
    file, with the hook [flushBuffer] of this class: the pending bytes are
    handed to [flushBuffer] (section 4.4). *)
Definition flush (this : t) : M t :=
  let pending := BufferedIndexOutput.buffer (base this) in
  this' <- flushBuffer pending 0 (Z.of_nat (length pending)) this ;;
  ret (mk (BufferedIndexOutput.flushed (base this')) (file this') (isOpen this')).

(** Modelled from the spec: [BufferedIndexOutput::close], not part of the
    file; by section 4.4 closing "flushes remaining buffered bytes". *)
Definition BufferedIndexOutput_close (this : t) : M t := flush this.

(** Modelled from the spec: [BufferedIndexOutput::seek], not part of the
    file; by section 4.4 it "flushes any buffered bytes for the old
    position first", then moves the logical position. *)
Definition BufferedIndexOutput_seek (pos : Z) (this : t) : M t :=
  this' <- flush this ;;
  ret (mk (BufferedIndexOutput.seek pos (base this')) (file this') (isOpen this')).

(** [SimpleFSIndexOutput::close] *)
Definition close (this : t) : M t :=
  if isOpen this then
    this' <- BufferedIndexOutput_close this ;;
    ret (mk (base this') None false)
  else ret this.

(** [SimpleFSIndexOutput::seek] *)
Definition seek (pos : Z) (this : t) : M t :=
  this' <- BufferedIndexOutput_seek pos this ;;
  match file this' with
  | None => fun w => (NullDeref, w)
  | Some f =>
      f' <- OutputFile.setPosition pos f ;;
      ret (mk (base this') (Some f') (isOpen this'))
  end.

(** [SimpleFSIndexOutput::length] *)
Definition length (this : t) : M Z :=
  match file this with
  | None => fun w => (NullDeref, w)
  | Some f => OutputFile.getLength f
  end.

(** [SimpleFSIndexOutput::setLength] *)
Definition setLength (length : Z) (this : t) : M unit :=
  match file this with
  | None => fun w => (NullDeref, w)
  | Some f => OutputFile.setLength length f
  end.

End SimpleFSIndexOutput.

(** ** Runs of stream operations and properties of computations *)

(** What may happen to a world during the lifetime of a handle: any method
    of any input stream, the opening of further streams, and a change of
    the files on disk made from outside. *)
Inductive Step : Type :=
  | StepNew (path : string) (bufferSize chunkSize : Z)
  | StepReadInternal (fuel : nat) (this : SimpleFSIndexInput.t)
      (b : list byte) (offset length : Z)
  | StepSeek (pos : Z) (this : SimpleFSIndexInput.t)
  | StepClone (other : option SimpleFSIndexInput.t) (this : SimpleFSIndexInput.t)
  | StepLength (this : SimpleFSIndexInput.t)
  | StepIsValid (this : SimpleFSIndexInput.t)
  | StepClose (this : SimpleFSIndexInput.t)
  | StepExternal (disk : FileSystem).

Definition run_step `{ExternalConstants} (w : World) (s : Step) : World :=
  match s with
  | StepNew path bufferSize chunkSize => snd (SimpleFSIndexInput.new path bufferSize chunkSize w)
  | StepReadInternal fuel this b offset length =>
      snd (SimpleFSIndexInput.readInternal fuel this b offset length w)
  | StepSeek pos this => snd (SimpleFSIndexInput.seek pos this w)
  | StepClone other this => snd (SimpleFSIndexInput.clone other this w)
  | StepLength this => snd (SimpleFSIndexInput.length this w)
  | StepIsValid this => snd (SimpleFSIndexInput.isValid this w)
  | StepClose this => snd (SimpleFSIndexInput.close this w)
  | StepExternal disk => mkWorld disk (heap w) (log w)
  end.

Definition run_steps `{ExternalConstants} (w : World) (steps : list Step) : World :=
  fold_left run_step steps w.

Definition is_CallRead (e : Event) : bool :=
  match e with
  | CallRead _ _ _ _ => true
  | _ => false
  end.

(** The calls [readInternal] makes on the handle before its loop: one
    [setPosition] when the stream's position differs from the handle's. *)
Definition reconciliation (l : loc) (position : Z) (h : InputFile.t) : list Event :=
  if negb (position =? InputFile.getPosition h) then [CallSetPosition l position] else [].

(** A property of the world that a computation keeps, whatever its
    outcome. *)
Definition preserves {A} (P : World -> Prop) (m : M A) : Prop :=
  forall w, P w -> P (snd (m w)).

(** The handle at [l] is still there, with the path and the length of [h]. *)
Definition handle_kept (l : loc) (h : InputFile.t) (w : World) : Prop :=
  exists h', heap w !! l = Some h' /\
    InputFile.path h' = InputFile.path h /\ InputFile.length h' = InputFile.length h.

(** A computation that leaves the files alone and adds to the log only
    entries satisfying [P]. *)
Definition appends {A} (P : Event -> bool) (m : M A) : Prop :=
  forall w, fs (snd (m w)) = fs w /\
    exists rest, log (snd (m w)) = log w ++ rest /\ forallb P rest = true.

(** The states an [OutputFile] can be in once built: its stream pointer is
    reset, or it points to a stream that is open. *)
Definition open_or_reset (this : OutputFile.t) : Prop :=
  match OutputFile.file this with
  | Some f => ofstream.is_open f = true
  | None => True
  end.

(** ** Sample objects *)

(** Sample values of the constants, a three-byte file, a handle on it and
    streams on that handle. *)
Definition sample_constants : ExternalConstants :=
  {| FILE_EOF := -1; FILE_ERROR := -2; BUFFER_SIZE := 1024 |}.

Definition sample_bytes : list byte := [Byte.x0a; Byte.x0b; Byte.x0c].

Definition sample_fs : FileSystem :=
  mkFileSystem {[ "segments" := sample_bytes ]} ∅.

Definition sample_handle (position : Z) : InputFile.t :=
  InputFile.mk "segments" position 3.

Definition sample_world (position : Z) : World :=
  mkWorld sample_fs {[ 0%nat := sample_handle position ]} [].

Definition sample_stream (filePointer chunkSize : Z) : SimpleFSIndexInput.t :=
  SimpleFSIndexInput.mk (BufferedIndexInput.mk 8 [] filePointer) (Some 0%nat)
    "segments" chunkSize false.

(** A run in which the file disappears from the disk. *)
Definition sample_steps : list Step :=
  [StepSeek 2 (sample_stream 0 2);
   StepReadInternal 4 (sample_stream 2 2) [] 0 1;
   StepExternal (mkFileSystem ∅ ∅);
   StepReadInternal 4 (sample_stream 5 2) [] 0 1;
   StepClose (sample_stream 0 2)].

(** The scenario of section 8 of the spec, on the sample file: seek, clone,
    seek the clone back to 0, fill three bytes through the clone, then fill
    two bytes through the original. *)
Definition sample_scenario `{ExternalConstants} : M (list byte * list byte) :=
  original <- SimpleFSIndexInput.seek 1 (sample_stream 0 2) ;;
  clone <- SimpleFSIndexInput.clone None original ;;
  clone <- SimpleFSIndexInput.seek 0 clone ;;
  b1 <- SimpleFSIndexInput.readInternal 3 clone (replicate 3 Byte.x00) 0 3 ;;
  b2 <- SimpleFSIndexInput.readInternal 2 original (replicate 3 Byte.x00) 0 2 ;;
  ret (b1, b2).

(** An open output stream with one byte pending. *)
Definition sample_output : SimpleFSIndexOutput.t :=
  SimpleFSIndexOutput.mk (BufferedIndexOutput.mk [Byte.x01] 0)
    (Some (OutputFile.mk "out" (Some (ofstream.mk true false false false "out" 0))))
    true.

Definition sample_output_world : World :=
  mkWorld (mkFileSystem {[ "out" := [] ]} ∅) ∅ [].

(** The output stream and the world after [close]. *)
Definition sample_output_closed : SimpleFSIndexOutput.t :=
  SimpleFSIndexOutput.mk (BufferedIndexOutput.mk [] 1) None false.

Definition sample_output_world_closed : World :=
  mkWorld (mkFileSystem {[ "out" := [Byte.x01] ]} ∅) ∅ [].

(** ** Further properties of computations *)

(** A computation through the pointer [p] changes no file and no handle
    but the one [p] points to. *)
Definition touches_only {A} (p : option loc) (m : M A) : Prop :=
  forall w, fs (snd (m w)) = fs w /\
    forall l', p <> Some l' -> heap (snd (m w)) !! l' = heap w !! l'.

(** Two worlds with the same files and the same handles: they differ in
    the log at most. *)
Definition same_state (w1 w2 : World) : Prop :=
  fs w1 = fs w2 /\ heap w1 = heap w2.

(** A computation whose outcome and effect on files and handles do not
    depend on the log. *)
Definition log_blind {A} (m : M A) : Prop :=
  forall w1 w2, same_state w1 w2 ->
    fst (m w1) = fst (m w2) /\ same_state (snd (m w1)) (snd (m w2)).

(** A read request of a fill: a [read] call asking for at least one byte,
    at most [chunkSize] and at most [len] bytes. *)
Definition read_request_within (chunkSize len : Z) (e : Event) : bool :=
  match e with
  | CallRead _ _ n _ => (0 <? n) && (n <=? chunkSize) && (n <=? len)
  | _ => false
  end.

(** The buffer [b] with the bytes [bs] in place from index [offset] on. *)
Definition splice (b : list byte) (offset : Z) (bs : list byte) : list byte :=
  take (Z.to_nat offset) b ++ bs ++ drop (Z.to_nat offset + length bs) b.

(** A flush request [(b, offset, length)] and the bytes it designates. *)
Definition flush_request : Type := list byte * Z * Z.

Definition request_bytes (r : flush_request) : list byte :=
  let '(b, offset, length) := r in slice b offset length.

(** The range of a request lies within its buffer. *)
Definition request_in_range (r : flush_request) : bool :=
  let '(b, offset, len) := r in
  (0 <=? offset) && (0 <=? len) && (offset + len <=? Z.of_nat (length b)).

(** [flushBuffer] called for each request in turn. *)
Fixpoint flushBuffer_all (requests : list flush_request) (this : SimpleFSIndexOutput.t)
    : M SimpleFSIndexOutput.t :=
  match requests with
  | [] => ret this
  | (b, offset, length) :: rest =>
      this' <- SimpleFSIndexOutput.flushBuffer b offset length this ;;
      flushBuffer_all rest this'
  end.

(** An output stream in the state the constructor and [flushBuffer] leave
    it in: its handle points to an open stream without error bits, on
    [path], positioned at the end of the file, whose content is [content]. *)
Definition appending (path : string) (content : list byte)
    (this : SimpleFSIndexOutput.t) (w : World) : Prop :=
  exists f,
    SimpleFSIndexOutput.file this = Some (OutputFile.mk path (Some f)) /\
    ofstream.is_open f = true /\ ofstream.good f = true /\
    ofstream.target f = path /\ ofstream.ppos f = Z.of_nat (length content) /\
    files (fs w) !! path = Some content.

(** Sample requests and a world with a file that cannot be written. *)
Definition sample_requests : list flush_request :=
  [([Byte.x01; Byte.x02; Byte.x03], 1, 2); ([Byte.x04], 0, 1)].

Definition sample_readonly_world : World :=
  mkWorld (mkFileSystem {[ "segments" := sample_bytes ]} {[ "locked" ]}) ∅ [].

(** Writing through an output stream, then reading back through an input
    stream. *)
Definition write_then_read `{ExternalConstants} (path : string)
    (requests : list flush_request) (bufferSize chunkSize : Z) (fuel : nat)
    (b : list byte) (offset len : Z) : M (list byte) :=
  out <- SimpleFSIndexOutput.new path ;;
  out <- flushBuffer_all requests out ;;
  inp <- SimpleFSIndexInput.new path bufferSize chunkSize ;;
  SimpleFSIndexInput.readInternal fuel inp b offset len.

(** * Properties *)

(** ** The model at work *)

(** Two bytes from position 1, in chunks of one byte, into a buffer of
    three bytes from index 1 on. *)
Example readInternal_in_chunks :
  @SimpleFSIndexInput.readInternal sample_constants 2 (sample_stream 1 1)
    (replicate 3 Byte.x00) 1 2 (sample_world 0) =
  (Returns [Byte.x00; Byte.x0b; Byte.x0c],
   mkWorld sample_fs {[ 0%nat := sample_handle 3 ]}
     [CallSetPosition 0%nat 1; CallRead 0%nat 1 1 1; CallRead 0%nat 2 1 1]).
Proof. vm_compute. reflexivity. Qed.

(** The original and its clone read through one handle, each from its own
    logical position. *)
Example sample_scenario_result :
  fst (@sample_scenario sample_constants (sample_world 0)) =
    Returns ([Byte.x0a; Byte.x0b; Byte.x0c], [Byte.x0b; Byte.x0c; Byte.x00]) /\
  heap (snd (@sample_scenario sample_constants (sample_world 0))) =
    {[ 0%nat := sample_handle 3 ]}.
Proof. vm_compute. split; reflexivity. Qed.

(** A file that has gone makes the read return the error sentinel, and the
    fill throw. *)
Example readInternal_file_removed :
  fst (@SimpleFSIndexInput.readInternal sample_constants 2 (sample_stream 0 2) [] 0 1
         (mkWorld (mkFileSystem ∅ ∅) {[ 0%nat := sample_handle 0 ]} [])) =
    Throws (IOException "Failed to read from file: segments").
Proof. vm_compute. reflexivity. Qed.

(** Two bytes asked at position 2 of three: one byte arrives, then every
    read returns 0. *)
Example readInternal_past_end_log :
  log (snd (@SimpleFSIndexInput.readInternal sample_constants 3 (sample_stream 2 4)
              [Byte.x00; Byte.x00] 0 2 (sample_world 0))) =
    [CallSetPosition 0%nat 2; CallRead 0%nat 0 2 1; CallRead 0%nat 1 1 0; CallRead 0%nat 1 1 0].
Proof. vm_compute. reflexivity. Qed.

(** An output stream writes its pending byte when it is closed. *)
Example close_flushes_pending_bytes :
  SimpleFSIndexOutput.close sample_output sample_output_world =
    (Returns sample_output_closed, sample_output_world_closed).
Proof. vm_compute. reflexivity. Qed.


(** ** Fixed-width arithmetic *)

Lemma wrap32_id (z : Z) : int32_ok z -> wrap32 z = z.
Proof.
  unfold int32_ok, INT32_MIN, INT32_MAX, wrap32. intros Hz.
  rewrite Z.mod_small; lia.
Qed.

Lemma wrap64_id (z : Z) : int64_ok z -> wrap64 z = z.
Proof.
  unfold int64_ok, INT64_MIN, INT64_MAX, wrap64. intros Hz.
  rewrite Z.mod_small; lia.
Qed.

(** ** The stream model *)

(** A stream that is [good()] has not seen the end of the file: the test
    [file.eof()] that follows [!file.good()] in [InputFile::read] never
    succeeds. *)
Lemma ifstream_good_not_eof (s : ifstream.t) :
  ifstream.good s = true -> ifstream.eof s = false.
Proof.
  unfold ifstream.good, ifstream.eof.
  destruct (ifstream.badbit s), (ifstream.failbit s), (ifstream.eofbit s); simpl; congruence.
Qed.

(** The bytes a read of [n] bytes at position [p] finds in [d]. *)
Lemma length_take_drop (d : list byte) (p n : Z) :
  0 <= p -> 0 <= n ->
  Z.of_nat (length (take (Z.to_nat n) (drop (Z.to_nat p) d)))
  = Z.max 0 (Z.min n (Z.of_nat (length d) - p)).
Proof.
  intros Hp Hn. rewrite length_take, length_drop. lia.
Qed.

(** ** The raw input handle *)

(** [InputFile::read] on a file that exists, from a position that is not
    negative: the count is what the stream extracted. *)
Lemma InputFile_read_present `{ExternalConstants} fs (this : InputFile.t) d b offset len :
  files fs !! InputFile.path this = Some d ->
  0 <= InputFile.position this ->
  InputFile.read fs this b offset len =
    let got := take (Z.to_nat len) (drop (Z.to_nat (InputFile.position this)) d) in
    let readCount := wrap32 (Z.of_nat (length got)) in
    (readCount,
     InputFile.mk (InputFile.path this) (wrap64 (InputFile.position this + readCount))
       (InputFile.length this),
     store_bytes b offset got).
Proof.
  intros Hd Hp. unfold InputFile.read, ifstream.open. rewrite Hd.
  unfold ifstream.seekg. simpl.
  destruct (Z.leb_spec 0 (InputFile.position this)) as [_|]; [|lia].
  reflexivity.
Qed.

(** Otherwise the stream cannot be opened or positioned, and the result is
    the error sentinel. *)
Lemma InputFile_read_absent `{ExternalConstants} fs (this : InputFile.t) b offset len :
  files fs !! InputFile.path this = None \/ InputFile.position this < 0 ->
  InputFile.read fs this b offset len = (FILE_ERROR, this, b).
Proof.
  intros Hc. unfold InputFile.read, ifstream.open.
  destruct (files fs !! InputFile.path this) as [d|] eqn:Hd.
  - destruct Hc as [|Hp]; [congruence|].
    unfold ifstream.seekg. simpl.
    destruct (Z.leb_spec 0 (InputFile.position this)); [lia|]. reflexivity.
  - reflexivity.
Qed.

(** [InputFile::read] never returns the end-of-file sentinel: its result is
    the error sentinel or a count, which is not negative. *)
Lemma InputFile_read_never_reports_eof `{ExternalConstants} fs (this : InputFile.t)
    b offset len :
  FILE_EOF < 0 -> FILE_EOF <> FILE_ERROR -> int32_ok len ->
  fst (fst (InputFile.read fs this b offset len)) <> FILE_EOF.
Proof.
  intros Hneg Hne Hlen.
  destruct (files fs !! InputFile.path this) as [d|] eqn:Hd;
    [destruct (Z.le_gt_cases 0 (InputFile.position this)) as [Hp|Hp]|].
  - rewrite (InputFile_read_present _ _ d) by assumption. cbn [fst].
    rewrite wrap32_id; [lia|].
    unfold int32_ok, INT32_MIN, INT32_MAX in *. rewrite length_take. lia.
  - rewrite InputFile_read_absent by (right; lia). cbn [fst]. congruence.
  - rewrite InputFile_read_absent by (left; assumption). cbn [fst]. congruence.
Qed.

(** [InputFile::read] changes neither the path nor the length. *)
Lemma InputFile_read_frame `{ExternalConstants} fs (this : InputFile.t) b offset len :
  InputFile.path (snd (fst (InputFile.read fs this b offset len))) = InputFile.path this /\
  InputFile.length (snd (fst (InputFile.read fs this b offset len))) = InputFile.length this.
Proof.
  destruct (files fs !! InputFile.path this) as [d|] eqn:Hd.
  - destruct (Z.le_gt_cases 0 (InputFile.position this)).
    + rewrite (InputFile_read_present _ _ d) by assumption. simpl. auto.
    + rewrite InputFile_read_absent by (right; lia). auto.
  - rewrite InputFile_read_absent by (left; assumption). auto.
Qed.

(** Claim C7, as stated, fails: a read that asks for -1 bytes, on a handle
    at position 1 of a file of length 3, extracts nothing and returns 0,
    which is neither sentinel and exceeds the requested length. *)
Lemma InputFile_read_negative_length_exceeds_request :
  @InputFile.read sample_constants sample_fs (sample_handle 1) [] 0 (-1) =
    (0, sample_handle 1, []) /\
  0 <> @FILE_EOF sample_constants /\ 0 <> @FILE_ERROR sample_constants /\
  ~ (0 <= 0 <= -1) /\
  ~ (forall fs (this this' : InputFile.t) (b b' : list byte) (offset len i : Z),
       int32_ok len ->
       @InputFile.read sample_constants fs this b offset len = (i, this', b') ->
       i <> @FILE_EOF sample_constants -> i <> @FILE_ERROR sample_constants ->
       0 <= i <= len /\ InputFile.position this' = InputFile.position this + i).
Proof.
  assert (Hread : @InputFile.read sample_constants sample_fs (sample_handle 1) [] 0 (-1) =
                    (0, sample_handle 1, [])) by (vm_compute; reflexivity).
  split; [exact Hread|]. split; [discriminate|]. split; [discriminate|].
  split; [lia|].
  intros Hclaim.
  destruct (Hclaim sample_fs (sample_handle 1) (sample_handle 1) [] [] 0 (-1) 0)
    as [Hcount _]; try discriminate; try exact Hread; try lia.
  vm_compute. split; discriminate.
Qed.

(** Claim C7, amended.  A read on the raw handle that asks for a count of
    bytes that is not negative, and returns neither the end-of-file
    sentinel nor the error sentinel, returns a count between 0 and the
    requested length, and the position of the handle has advanced by that
    count.  The position and the size of the file are values of
    [int64_t]. *)
Theorem InputFile_read_success_count `{ExternalConstants} fs
    (this this' : InputFile.t) (b b' : list byte) (offset len i : Z) :
  0 <= len -> int32_ok len ->
  int64_ok (InputFile.position this) ->
  int64_ok (FileUtils.fileLength fs (InputFile.path this)) ->
  InputFile.read fs this b offset len = (i, this', b') ->
  i <> FILE_EOF -> i <> FILE_ERROR ->
  0 <= i <= len /\
  InputFile.position this' = InputFile.position this + i.
Proof.
  intros Hlen Hlen32 Hpos Hsize Hread Heof Herr.
  destruct (files fs !! InputFile.path this) as [d|] eqn:Hd;
    [destruct (Z.le_gt_cases 0 (InputFile.position this)) as [Hp|Hp]|].
  - rewrite (InputFile_read_present _ _ d) in Hread by assumption.
    cbv zeta in Hread. rewrite length_take_drop in Hread by assumption.
    unfold FileUtils.fileLength in Hsize. rewrite Hd in Hsize.
    set (k := Z.max 0 (Z.min len (Z.of_nat (length d) - InputFile.position this))) in *.
    assert (Hk : 0 <= k <= len) by lia.
    assert (Hk32 : wrap32 k = k).
    { apply wrap32_id. unfold int32_ok, INT32_MIN, INT32_MAX in *. lia. }
    rewrite Hk32 in Hread.
    assert (Hk64 : wrap64 (InputFile.position this + k) = InputFile.position this + k).
    { apply wrap64_id. unfold int64_ok, INT64_MIN, INT64_MAX in *. lia. }
    rewrite Hk64 in Hread.
    injection Hread as <- <- _. simpl. auto.
  - rewrite InputFile_read_absent in Hread by (right; lia).
    injection Hread as <- _ _. congruence.
  - rewrite InputFile_read_absent in Hread by (left; assumption).
    injection Hread as <- _ _. congruence.
Qed.

Lemma InputFile_read_success_count_witness :
  0 <= 2 <= 5 /\ InputFile.position (sample_handle 3) = InputFile.position (sample_handle 1) + 2.
Proof.
  apply (@InputFile_read_success_count sample_constants sample_fs
           (sample_handle 1) (sample_handle 3) [] [] 0 5 2).
  - lia.
  - unfold int32_ok, INT32_MIN, INT32_MAX. lia.
  - unfold int64_ok, INT64_MIN, INT64_MAX. simpl. lia.
  - vm_compute. split; discriminate.
  - vm_compute. reflexivity.
  - simpl. lia.
  - simpl. lia.
Defined.

(** [setPosition] in one equation: the outcome depends on the range test,
    the handle it leaves does not. *)
Lemma InputFile_setPosition_unfold (p : Z) (this : InputFile.t) :
  InputFile.setPosition p this =
    (if decide (p < 0 \/ p > InputFile.length this)
     then Throws (IOException EmptyString) else Returns tt,
     InputFile.mk (InputFile.path this) p (InputFile.length this)).
Proof.
  unfold InputFile.setPosition. simpl.
  destruct (Z.ltb_spec p 0), (Z.gtb_spec p (InputFile.length this));
    simpl; case_decide; try reflexivity; lia.
Qed.

(** Claim C3.  [setPosition(p)] throws exactly when [p < 0] or
    [p > length], and returns exactly when [0 <= p <= length]; in both
    cases the position of the handle is [p] afterwards, and its path and
    length are as before.  The assignment precedes the range test: a call
    that fails has moved the position to the rejected value. *)
Theorem InputFile_setPosition_outcome (p : Z) (this : InputFile.t) :
  (fst (InputFile.setPosition p this) = Throws (IOException EmptyString)
     <-> p < 0 \/ p > InputFile.length this) /\
  (fst (InputFile.setPosition p this) = Returns tt
     <-> 0 <= p <= InputFile.length this) /\
  InputFile.position (snd (InputFile.setPosition p this)) = p /\
  InputFile.path (snd (InputFile.setPosition p this)) = InputFile.path this /\
  InputFile.length (snd (InputFile.setPosition p this)) = InputFile.length this.
Proof.
  rewrite InputFile_setPosition_unfold. simpl.
  case_decide as Hrange; repeat split; try reflexivity; try discriminate; intros; lia.
Qed.

Lemma InputFile_setPosition_outcome_witness :
  fst (InputFile.setPosition 5 (sample_handle 1)) = Throws (IOException EmptyString) /\
  InputFile.position (snd (InputFile.setPosition 5 (sample_handle 1))) = 5.
Proof.
  destruct (InputFile_setPosition_outcome 5 (sample_handle 1)) as (Hthrow & _ & Hpos & _).
  split; [|exact Hpos].
  apply Hthrow. right. simpl. lia.
Defined.

(** A handle at position 1 on a file of length 3, asked for position 5: the
    call throws and the handle is at position 5. *)
Example InputFile_setPosition_rejected_value_kept :
  InputFile.setPosition 5 (sample_handle 1) =
    (Throws (IOException EmptyString), sample_handle 5).
Proof. reflexivity. Qed.

(** [setPosition] changes neither the path nor the length. *)
Lemma InputFile_setPosition_frame (p : Z) (this : InputFile.t) :
  InputFile.path (snd (InputFile.setPosition p this)) = InputFile.path this /\
  InputFile.length (snd (InputFile.setPosition p this)) = InputFile.length this.
Proof. rewrite InputFile_setPosition_unfold. simpl. auto. Qed.

(** ** The monad *)

Lemma preserves_ret {A} (P : World -> Prop) (a : A) : preserves P (ret a).
Proof. intros w Hw. exact Hw. Qed.

Lemma preserves_throw {A} (P : World -> Prop) (e : Exception) : preserves P (@throw A e).
Proof. intros w Hw. exact Hw. Qed.

Lemma preserves_bind {A B} (P : World -> Prop) (m : M A) (f : A -> M B) :
  preserves P m -> (forall a, preserves P (f a)) -> preserves P (bind m f).
Proof.
  intros Hm Hf w Hw. unfold bind. specialize (Hm w Hw).
  destruct (m w) as [[a| | |] w']; simpl in *; try assumption.
  apply Hf, Hm.
Qed.

Lemma deref_Some (l : loc) (h : InputFile.t) (w : World) :
  heap w !! l = Some h -> deref (Some l) w = (Returns (l, h), w).
Proof. intros Hl. unfold deref. rewrite Hl. reflexivity. Qed.

Lemma preserves_deref (P : World -> Prop) (p : option loc) : preserves P (deref p).
Proof.
  intros w Hw. unfold deref. destruct p as [l|]; [|exact Hw].
  destruct (heap w !! l); exact Hw.
Qed.

(** ** Calls on the shared handle *)

Lemma call_getPosition_Some (l : loc) (h : InputFile.t) (w : World) :
  heap w !! l = Some h ->
  call_getPosition (Some l) w = (Returns (InputFile.getPosition h), w).
Proof. intros Hl. unfold call_getPosition, bind. rewrite (deref_Some l h) by assumption. reflexivity. Qed.

Lemma call_getLength_Some (l : loc) (h : InputFile.t) (w : World) :
  heap w !! l = Some h ->
  call_getLength (Some l) w = (Returns (InputFile.getLength h), w).
Proof. intros Hl. unfold call_getLength, bind. rewrite (deref_Some l h) by assumption. reflexivity. Qed.

Lemma call_setPosition_Some (l : loc) (h : InputFile.t) (p : Z) (w : World) :
  heap w !! l = Some h ->
  call_setPosition (Some l) p w =
    (if decide (p < 0 \/ p > InputFile.length h)
     then Throws (IOException EmptyString) else Returns tt,
     mkWorld (fs w)
       (<[l := InputFile.mk (InputFile.path h) p (InputFile.length h)]> (heap w))
       (log w ++ [CallSetPosition l p])).
Proof.
  intros Hl. unfold call_setPosition, bind. rewrite (deref_Some l h) by assumption.
  rewrite InputFile_setPosition_unfold. simpl.
  case_decide; reflexivity.
Qed.

Lemma call_read_Some `{ExternalConstants} (l : loc) (h : InputFile.t) b offset len (w : World) :
  heap w !! l = Some h ->
  call_read (Some l) b offset len w =
    (Returns (fst (fst (InputFile.read (fs w) h b offset len)),
              snd (InputFile.read (fs w) h b offset len)),
     mkWorld (fs w)
       (<[l := snd (fst (InputFile.read (fs w) h b offset len))]> (heap w))
       (log w ++ [CallRead l offset len (fst (fst (InputFile.read (fs w) h b offset len)))])).
Proof.
  intros Hl. unfold call_read, bind. rewrite (deref_Some l h) by assumption.
  destruct (InputFile.read (fs w) h b offset len) as [[i h'] b']. reflexivity.
Qed.

(** ** The length of a handle is fixed *)

Lemma handle_kept_refl (l : loc) (h : InputFile.t) (w : World) :
  heap w !! l = Some h -> handle_kept l h w.
Proof. intros Hl. exists h. auto. Qed.

Lemma handle_kept_insert (l l' : loc) (h h1 h2 : InputFile.t) (w : World) fs' log' :
  handle_kept l h w ->
  heap w !! l' = Some h1 ->
  InputFile.path h2 = InputFile.path h1 ->
  InputFile.length h2 = InputFile.length h1 ->
  handle_kept l h (mkWorld fs' (<[l' := h2]> (heap w)) log').
Proof.
  intros (h' & Hl & Hp & Hn) Hl' Hp2 Hn2. unfold handle_kept. simpl.
  destruct (decide (l' = l)) as [->|Hne].
  - exists h2. rewrite lookup_insert_eq. split; [reflexivity|].
    assert (h1 = h') by congruence. subst h1. split; congruence.
  - exists h'. rewrite lookup_insert_ne by assumption. auto.
Qed.

Lemma handle_kept_same_heap (l : loc) (h : InputFile.t) (w : World) fs' log' :
  handle_kept l h w -> handle_kept l h (mkWorld fs' (heap w) log').
Proof. intros Hk. exact Hk. Qed.

Lemma preserves_call_getPosition l h p : preserves (handle_kept l h) (call_getPosition p).
Proof.
  apply preserves_bind; [apply preserves_deref|].
  intros [l' h']. apply preserves_ret.
Qed.

Lemma preserves_call_getLength l h p : preserves (handle_kept l h) (call_getLength p).
Proof.
  apply preserves_bind; [apply preserves_deref|].
  intros [l' h']. apply preserves_ret.
Qed.

Lemma preserves_call_setPosition l h p position :
  preserves (handle_kept l h) (call_setPosition p position).
Proof.
  intros w Hw. destruct p as [l'|]; [|exact Hw].
  destruct (heap w !! l') as [h1|] eqn:Hl'.
  - rewrite (call_setPosition_Some l' h1) by assumption. simpl.
    apply (handle_kept_insert l l' h h1); auto.
  - unfold call_setPosition, bind, deref. rewrite Hl'. exact Hw.
Qed.

Lemma preserves_call_read `{ExternalConstants} l h p b offset len :
  preserves (handle_kept l h) (call_read p b offset len).
Proof.
  intros w Hw. destruct p as [l'|]; [|exact Hw].
  destruct (heap w !! l') as [h1|] eqn:Hl'.
  - rewrite (call_read_Some l' h1) by assumption. simpl.
    apply (handle_kept_insert l l' h h1); auto; apply InputFile_read_frame.
  - unfold call_read, bind, deref. rewrite Hl'. exact Hw.
Qed.

Lemma preserves_call_isValid l h p : preserves (handle_kept l h) (call_isValid p).
Proof.
  intros w Hw. destruct p as [l'|]; [|exact Hw].
  unfold call_isValid, bind, deref, record.
  destruct (heap w !! l') as [h1|]; exact Hw.
Qed.

Lemma preserves_call_close l h p : preserves (handle_kept l h) (call_close p).
Proof.
  intros w Hw. destruct p as [l'|]; [|exact Hw].
  unfold call_close, bind, deref, record, put.
  destruct (heap w !! l') as [h1|] eqn:Hl'; [|exact Hw]. simpl.
  apply (handle_kept_insert l l' h h1); auto.
Qed.

Lemma preserves_call_new l h path : preserves (handle_kept l h) (call_new path).
Proof.
  intros w (h' & Hl & Hp & Hn). unfold call_new, bind, record, handle_kept. simpl.
  destruct (InputFile.new (fs w) path) as [h1| | |]; simpl;
    exists h'; auto.
  split; [|auto].
  rewrite lookup_insert_ne; [assumption|].
  intros Heq. assert (Hin : l ∈ dom (heap w)) by (apply elem_of_dom; eauto).
  rewrite <- Heq in Hin. exact (is_fresh _ Hin).
Qed.

Lemma preserves_readInternal_loop `{ExternalConstants} l h fuel this b offset len total :
  preserves (handle_kept l h)
    (SimpleFSIndexInput.readInternal_loop fuel this b offset len total).
Proof.
  revert b total. induction fuel as [|fuel IH]; intros b total; simpl.
  - destruct (total <? len); [intros w Hw; exact Hw | apply preserves_ret].
  - destruct (total <? len); [|apply preserves_ret].
    apply preserves_bind; [apply preserves_call_read|].
    intros [i b']. destruct (i =? FILE_EOF); [apply preserves_throw|].
    destruct (i =? FILE_ERROR); [apply preserves_throw|]. apply IH.
Qed.

Lemma preserves_readInternal `{ExternalConstants} l h fuel this b offset len :
  preserves (handle_kept l h) (SimpleFSIndexInput.readInternal fuel this b offset len).
Proof.
  unfold SimpleFSIndexInput.readInternal.
  apply preserves_bind; [apply preserves_call_getPosition|]. intros p.
  apply preserves_bind; [|intros _; apply preserves_readInternal_loop].
  destruct (negb _); [apply preserves_call_setPosition | apply preserves_ret].
Qed.

Lemma run_step_keeps_handle `{ExternalConstants} l h (s : Step) (w : World) :
  handle_kept l h w -> handle_kept l h (run_step w s).
Proof.
  destruct s; simpl.
  - apply (preserves_bind (handle_kept l h)); [apply preserves_call_new|].
    intros a. apply preserves_ret.
  - apply preserves_readInternal.
  - intros Hw. exact Hw.
  - intros Hw. exact Hw.
  - apply preserves_call_getLength.
  - apply preserves_call_isValid.
  - unfold SimpleFSIndexInput.close. destruct (negb _).
    + apply preserves_call_close.
    + intros Hw. exact Hw.
  - intros Hw. exact Hw.
Qed.

Lemma run_steps_keep_handle `{ExternalConstants} l h (steps : list Step) (w : World) :
  handle_kept l h w -> handle_kept l h (run_steps w steps).
Proof.
  revert w. induction steps as [|s steps IH]; intros w Hw; simpl.
  - exact Hw.
  - apply IH, run_step_keeps_handle, Hw.
Qed.

(** [SimpleFSIndexInput(path, bufferSize, chunkSize)] on a path that
    exists: the stream holds a new handle at position 0 whose length is the
    size of the file. *)
Lemma SimpleFSIndexInput_new_present (path : string) (bufferSize chunkSize : Z)
    (w : World) (d : list byte) :
  files (fs w) !! path = Some d ->
  exists l,
    SimpleFSIndexInput.new path bufferSize chunkSize w =
      (Returns (SimpleFSIndexInput.mk (BufferedIndexInput.new bufferSize) (Some l)
                  path chunkSize false),
       mkWorld (fs w) (<[l := InputFile.mk path 0 (Z.of_nat (length d))]> (heap w))
         (log w ++ [CallNew path])) /\
    heap w !! l = None.
Proof.
  intros Hd. exists (fresh (dom (heap w))). split.
  - unfold SimpleFSIndexInput.new, call_new, bind, record, InputFile.new,
      FileUtils.fileExists, FileUtils.fileLength. simpl. rewrite Hd.
    rewrite bool_decide_eq_true_2 by eauto. reflexivity.
  - apply not_elem_of_dom, is_fresh.
Qed.

(** Claim C6.  Building a raw input handle on a path that does not exist
    throws [FileNotFoundException]; on a path that exists it gives a handle
    at position 0 whose length is the size of the file at that moment, and
    so does opening a stream; from then on, whatever the streams sharing
    the handle do and however the files change on disk, [length()] of the
    stream returns that same value. *)
Theorem InputFile_length_is_open_time_snapshot `{ExternalConstants} :
  (forall disk path, files disk !! path = None ->
     InputFile.new disk path = Throws (FileNotFoundException path)) /\
  (forall disk path d, files disk !! path = Some d ->
     InputFile.new disk path = Returns (InputFile.mk path 0 (Z.of_nat (length d)))) /\
  (forall path bufferSize chunkSize w d this w' steps,
     files (fs w) !! path = Some d ->
     SimpleFSIndexInput.new path bufferSize chunkSize w = (Returns this, w') ->
     SimpleFSIndexInput.length this (run_steps w' steps) =
       (Returns (Z.of_nat (length d)), run_steps w' steps)) /\
  (forall this l h w steps,
     SimpleFSIndexInput.file this = Some l -> heap w !! l = Some h ->
     SimpleFSIndexInput.length this (run_steps w steps) =
       (Returns (InputFile.length h), run_steps w steps)).
Proof.
  assert (Hkept : forall this l h w steps,
     SimpleFSIndexInput.file this = Some l -> heap w !! l = Some h ->
     SimpleFSIndexInput.length this (run_steps w steps) =
       (Returns (InputFile.length h), run_steps w steps)).
  { intros this l h w steps Hfile Hl.
    destruct (run_steps_keep_handle l h steps w (handle_kept_refl l h w Hl))
      as (h' & Hl' & _ & Hlen).
    unfold SimpleFSIndexInput.length. rewrite Hfile.
    rewrite (call_getLength_Some l h') by assumption.
    unfold InputFile.getLength. rewrite Hlen. reflexivity. }
  split; [|split; [|split]].
  - intros disk path Hnone. unfold InputFile.new, FileUtils.fileExists.
    rewrite Hnone. rewrite bool_decide_eq_false_2; [reflexivity|].
    intros [x Hx]. discriminate.
  - intros disk path d Hd. unfold InputFile.new, FileUtils.fileExists, FileUtils.fileLength.
    rewrite Hd. rewrite bool_decide_eq_true_2 by eauto. reflexivity.
  - intros path bufferSize chunkSize w d this w' steps Hd Hnew.
    destruct (SimpleFSIndexInput_new_present path bufferSize chunkSize w d Hd)
      as (l & Heq & _).
    rewrite Heq in Hnew. injection Hnew as <- <-.
    apply (Hkept _ l (InputFile.mk path 0 (Z.of_nat (length d)))); [reflexivity|].
    simpl. apply lookup_insert_eq.
  - exact Hkept.
Qed.

Lemma InputFile_length_is_open_time_snapshot_witness :
  InputFile.new sample_fs "missing" = Throws (FileNotFoundException "missing") /\
  InputFile.new sample_fs "segments" = Returns (sample_handle 0) /\
  @SimpleFSIndexInput.length (sample_stream 0 2)
     (@run_steps sample_constants (sample_world 0) sample_steps) =
    (Returns 3, @run_steps sample_constants (sample_world 0) sample_steps).
Proof.
  destruct (@InputFile_length_is_open_time_snapshot sample_constants)
    as (Hmissing & Hpresent & _ & Hkept).
  split; [|split].
  - apply Hmissing. reflexivity.
  - apply (Hpresent sample_fs "segments" sample_bytes). reflexivity.
  - apply (Hkept (sample_stream 0 2) 0%nat (sample_handle 0)); reflexivity.
Defined.

(** ** The log of a fill *)

Lemma appends_ret {A} (P : Event -> bool) (a : A) : appends P (ret a).
Proof. intros w. split; [reflexivity|]. exists []. rewrite app_nil_r. auto. Qed.

Lemma appends_throw {A} (P : Event -> bool) (e : Exception) : appends P (@throw A e).
Proof. intros w. split; [reflexivity|]. exists []. rewrite app_nil_r. auto. Qed.

Lemma appends_bind {A B} (P : Event -> bool) (m : M A) (f : A -> M B) :
  appends P m -> (forall a, appends P (f a)) -> appends P (bind m f).
Proof.
  intros Hm Hf w. unfold bind. destruct (Hm w) as (Hfs & rest & Hlog & Hall).
  destruct (m w) as [[a| | |] w']; simpl in *; try (split; [assumption|]; eauto).
  destruct (Hf a w') as (Hfs' & rest' & Hlog' & Hall').
  split; [congruence|]. exists (rest ++ rest'). split.
  - rewrite Hlog', Hlog, app_assoc. reflexivity.
  - rewrite forallb_app, Hall, Hall'. reflexivity.
Qed.

Lemma appends_call_read `{ExternalConstants} (p : option loc) b offset len :
  appends is_CallRead (call_read p b offset len).
Proof.
  intros w. destruct p as [l|].
  - destruct (heap w !! l) as [h|] eqn:Hl.
    + rewrite (call_read_Some l h) by assumption. simpl.
      split; [reflexivity|]. eexists. split; reflexivity.
    + unfold call_read, bind, deref. rewrite Hl. simpl.
      split; [reflexivity|]. exists []. rewrite app_nil_r. auto.
  - simpl. split; [reflexivity|]. exists []. rewrite app_nil_r. auto.
Qed.

Lemma appends_readInternal_loop `{ExternalConstants} fuel this b offset len total :
  appends is_CallRead (SimpleFSIndexInput.readInternal_loop fuel this b offset len total).
Proof.
  revert b total. induction fuel as [|fuel IH]; intros b total; simpl.
  - destruct (total <? len); [|apply appends_ret].
    intros w. split; [reflexivity|]. exists []. rewrite app_nil_r. auto.
  - destruct (total <? len); [|apply appends_ret].
    apply appends_bind; [apply appends_call_read|].
    intros [i b']. destruct (i =? FILE_EOF); [apply appends_throw|].
    destruct (i =? FILE_ERROR); [apply appends_throw|]. apply IH.
Qed.

(** The calls of a fill: the reconciliation, then reads only. *)
Lemma readInternal_log `{ExternalConstants} fuel this l h b offset len (w : World) :
  SimpleFSIndexInput.file this = Some l -> heap w !! l = Some h ->
  exists rest,
    log (snd (SimpleFSIndexInput.readInternal fuel this b offset len w)) =
      log w ++ reconciliation l (SimpleFSIndexInput.getFilePointer this) h ++ rest /\
    forallb is_CallRead rest = true.
Proof.
  intros Hfile Hl. unfold SimpleFSIndexInput.readInternal, reconciliation.
  rewrite Hfile. unfold bind at 1. rewrite (call_getPosition_Some l h) by assumption.
  unfold bind.
  destruct (negb (SimpleFSIndexInput.getFilePointer this =? InputFile.getPosition h)).
  - rewrite (call_setPosition_Some l h) by assumption.
    case_decide.
    + simpl. exists []. split; reflexivity.
    + match goal with |- context [SimpleFSIndexInput.readInternal_loop ?f ?t ?b ?o ?n ?z ?w1] =>
        destruct (appends_readInternal_loop f t b o n z w1) as (_ & rest & Hlog & Hall)
      end.
      exists rest. rewrite Hlog. simpl. rewrite <- app_assoc. auto.
  - unfold ret.
    destruct (appends_readInternal_loop fuel this b offset len 0 w) as (_ & rest & Hlog & Hall).
    exists rest. rewrite Hlog. auto.
Qed.

Lemma reconciliation_decide (l : loc) (p : Z) (h : InputFile.t) :
  reconciliation l p h =
    if decide (p = InputFile.position h) then [] else [CallSetPosition l p].
Proof.
  unfold reconciliation, InputFile.getPosition.
  destruct (Z.eqb_spec p (InputFile.position h)); case_decide; simpl; congruence.
Qed.

(** Claim C9.  [clone] returns a stream that holds the same handle, the
    same path and the same chunk size as the original, a buffer of its own,
    the logical position the original has at that moment, and
    [isClone = true]; the world is unchanged: no call is made on the
    handle, and the original is not written to. *)
Theorem SimpleFSIndexInput_clone_shares_handle `{ExternalConstants}
    (other : option SimpleFSIndexInput.t)
    (this : SimpleFSIndexInput.t) (w : World) :
  exists c,
    SimpleFSIndexInput.clone other this w = (Returns c, w) /\
    SimpleFSIndexInput.file c = SimpleFSIndexInput.file this /\
    SimpleFSIndexInput.path c = SimpleFSIndexInput.path this /\
    SimpleFSIndexInput.chunkSize c = SimpleFSIndexInput.chunkSize this /\
    SimpleFSIndexInput.getFilePointer c = SimpleFSIndexInput.getFilePointer this /\
    BufferedIndexInput.buffer (SimpleFSIndexInput.base c) = [] /\
    SimpleFSIndexInput.isClone c = true.
Proof.
  eexists. split; [reflexivity|]. simpl. repeat split; reflexivity.
Qed.

(** ** The shape of a fill *)

(** [readInternal] on a live handle: the loop runs in the world as it is
    when the positions agree, and in the world left by [setPosition]
    otherwise, unless that call throws. *)
Lemma readInternal_unfold `{ExternalConstants} fuel this l h b offset len (w : World) :
  SimpleFSIndexInput.file this = Some l -> heap w !! l = Some h ->
  let fp := SimpleFSIndexInput.getFilePointer this in
  let w1 := mkWorld (fs w)
              (<[l := InputFile.mk (InputFile.path h) fp (InputFile.length h)]> (heap w))
              (log w ++ [CallSetPosition l fp]) in
  SimpleFSIndexInput.readInternal fuel this b offset len w =
    if decide (fp = InputFile.position h) then
      SimpleFSIndexInput.readInternal_loop fuel this b offset len 0 w
    else if decide (fp < 0 \/ fp > InputFile.length h) then
      (Throws (IOException EmptyString), w1)
    else
      SimpleFSIndexInput.readInternal_loop fuel this b offset len 0 w1.
Proof.
  intros Hfile Hl fp w1. unfold SimpleFSIndexInput.readInternal. fold fp. rewrite Hfile.
  unfold bind at 1. rewrite (call_getPosition_Some l h) by assumption.
  unfold bind, InputFile.getPosition.
  destruct (Z.eqb_spec fp (InputFile.position h)) as [Heq|Hne]; cbn [negb].
  - rewrite decide_True by assumption. reflexivity.
  - rewrite (decide_False (P := fp = InputFile.position h)) by assumption.
    rewrite (call_setPosition_Some l h) by assumption. fold w1.
    case_decide; reflexivity.
Qed.

(** ** Fills of no bytes *)

Lemma readInternal_loop_done `{ExternalConstants} fuel this b offset len total (w : World) :
  len <= total ->
  SimpleFSIndexInput.readInternal_loop fuel this b offset len total w = (Returns b, w).
Proof.
  intros Hle. destruct fuel; simpl;
    destruct (Z.ltb_spec total len); try lia; reflexivity.
Qed.

(** Claim C10, as stated, fails: on a file of length 3, a stream whose
    logical position is 5 and whose handle is at position 0 asks for zero
    bytes, and the fill throws. *)
Lemma SimpleFSIndexInput_readInternal_empty_request_throws :
  fst (@SimpleFSIndexInput.readInternal sample_constants 0 (sample_stream 5 2) [] 0 0
         (sample_world 0)) = Throws (IOException EmptyString) /\
  ~ (exists b w',
       @SimpleFSIndexInput.readInternal sample_constants 0 (sample_stream 5 2) [] 0 0
         (sample_world 0) = (Returns b, w')).
Proof.
  split.
  - vm_compute. reflexivity.
  - intros (b & w' & Heq).
    apply (f_equal fst) in Heq. vm_compute in Heq. discriminate.
Qed.

(** Claim C10, amended.  A fill of zero or fewer bytes does no read and
    leaves the files alone; all it may do is the reconciliation.  When the
    logical position of the stream is the position of the handle, it
    returns in an unchanged world.  When the two differ and the logical
    position lies within [0, length], it returns, and the handle is at
    the logical position.  When they differ and the logical position lies
    outside [0, length], the call of [setPosition] throws. *)
Theorem SimpleFSIndexInput_readInternal_empty_request `{ExternalConstants}
    fuel this l h (b : list byte) (offset len : Z) (w : World) :
  len <= 0 ->
  SimpleFSIndexInput.file this = Some l -> heap w !! l = Some h ->
  let fp := SimpleFSIndexInput.getFilePointer this in
  let r := SimpleFSIndexInput.readInternal fuel this b offset len w in
  fs (snd r) = fs w /\
  log (snd r) =
    log w ++ (if decide (fp = InputFile.position h) then [] else [CallSetPosition l fp]) /\
  (fp = InputFile.position h -> r = (Returns b, w)) /\
  (fp <> InputFile.position h -> 0 <= fp <= InputFile.length h ->
     fst r = Returns b /\
     heap (snd r) =
       <[l := InputFile.mk (InputFile.path h) fp (InputFile.length h)]> (heap w)) /\
  (fp <> InputFile.position h -> fp < 0 \/ fp > InputFile.length h ->
     fst r = Throws (IOException EmptyString)).
Proof.
  intros Hlen Hfile Hl fp r. subst r.
  rewrite (readInternal_unfold fuel this l h) by assumption. fold fp.
  case_decide as Heq.
  - rewrite readInternal_loop_done by lia. simpl. rewrite app_nil_r.
    repeat split; try reflexivity; intros; congruence.
  - case_decide as Hrange.
    + simpl. repeat split; try reflexivity; intros; try reflexivity; try congruence; lia.
    + rewrite readInternal_loop_done by lia. simpl.
      repeat split; try reflexivity; intros; try reflexivity; try congruence; lia.
Qed.

Lemma SimpleFSIndexInput_readInternal_empty_request_witness :
  log (snd (@SimpleFSIndexInput.readInternal sample_constants 0 (sample_stream 2 2) [] 0 0
              (sample_world 0))) = [CallSetPosition 0%nat 2] /\
  fst (@SimpleFSIndexInput.readInternal sample_constants 0 (sample_stream 2 2) [] 0 0
         (sample_world 0)) = Returns [].
Proof.
  destruct (@SimpleFSIndexInput_readInternal_empty_request sample_constants 0%nat
              (sample_stream 2 2) 0%nat (sample_handle 0) [] 0 0 (sample_world 0))
    as (_ & Hlog & _ & Hin & _).
  - lia.
  - reflexivity.
  - reflexivity.
  - split.
    + exact Hlog.
    + apply Hin.
      * intros Hc. vm_compute in Hc. discriminate.
      * split; intros Hc; vm_compute in Hc; discriminate.
Defined.

(** ** Fills that reach the end of the file *)

Lemma store_bytes_nil (b : list byte) (offset : Z) : store_bytes b offset [] = b.
Proof. unfold store_bytes. destruct (offset <? 0); reflexivity. Qed.

(** A read on a handle that stands at or beyond the end of its file
    extracts nothing: it returns 0, not the end-of-file sentinel, and
    leaves the handle and the buffer as they are. *)
Lemma InputFile_read_at_end `{ExternalConstants} disk (this : InputFile.t) d b offset len :
  files disk !! InputFile.path this = Some d ->
  Z.of_nat (length d) <= InputFile.position this ->
  int64_ok (InputFile.position this) ->
  InputFile.read disk this b offset len = (0, this, b).
Proof.
  intros Hd Hend Hpos.
  rewrite (InputFile_read_present _ _ d) by (assumption || lia). cbv zeta.
  rewrite drop_ge by lia. rewrite take_nil. simpl length.
  change (wrap32 (Z.of_nat 0)) with 0. rewrite Z.add_0_r, wrap64_id by assumption.
  rewrite store_bytes_nil. destruct this; reflexivity.
Qed.

(** One iteration of the loop at the end of the file: the read returns 0,
    which is neither sentinel, nothing is thrown, and the loop goes on with
    the same [total], the same buffer and the same handle; only the log has
    grown. *)
Lemma readInternal_loop_step_at_end `{ExternalConstants} this l h d fuel b offset len total
    (w : World) :
  FILE_EOF < 0 -> FILE_ERROR < 0 ->
  SimpleFSIndexInput.file this = Some l -> heap w !! l = Some h ->
  files (fs w) !! InputFile.path h = Some d ->
  Z.of_nat (length d) <= InputFile.position h -> int64_ok (InputFile.position h) ->
  int32_ok total -> total < len ->
  SimpleFSIndexInput.readInternal_loop (S fuel) this b offset len total w =
  SimpleFSIndexInput.readInternal_loop fuel this b offset len total
    (mkWorld (fs w) (heap w)
       (log w ++ [CallRead l (wrap32 (offset + total))
                    (if wrap32 (total + SimpleFSIndexInput.chunkSize this) >? len
                     then wrap32 (len - total) else SimpleFSIndexInput.chunkSize this)
                    0])).
Proof.
  intros Heof Herr Hfile Hl Hd Hend Hpos Htotal Hlt.
  cbn [SimpleFSIndexInput.readInternal_loop].
  destruct (Z.ltb_spec total len) as [_|]; [|lia].
  rewrite Hfile. unfold bind. rewrite (call_read_Some l h) by assumption.
  rewrite (InputFile_read_at_end _ _ d) by assumption. cbn [fst snd].
  rewrite insert_id by assumption.
  destruct (Z.eqb_spec 0 FILE_EOF); [lia|].
  destruct (Z.eqb_spec 0 FILE_ERROR); [lia|].
  rewrite Z.add_0_r, wrap32_id by assumption. reflexivity.
Qed.

(** Once the handle stands at or beyond the end of the file, the loop runs
    for as long as it has fuel. *)
Lemma readInternal_loop_spins_at_end `{ExternalConstants} this l h d b offset len total :
  FILE_EOF < 0 -> FILE_ERROR < 0 ->
  SimpleFSIndexInput.file this = Some l ->
  Z.of_nat (length d) <= InputFile.position h -> int64_ok (InputFile.position h) ->
  int32_ok total -> total < len ->
  forall fuel (w : World),
    heap w !! l = Some h -> files (fs w) !! InputFile.path h = Some d ->
    fst (SimpleFSIndexInput.readInternal_loop fuel this b offset len total w) = OutOfFuel.
Proof.
  intros Heof Herr Hfile Hend Hpos Htotal Hlt.
  induction fuel as [|fuel IH]; intros w Hl Hd.
  - cbn [SimpleFSIndexInput.readInternal_loop].
    destruct (Z.ltb_spec total len); [reflexivity|lia].
  - rewrite (readInternal_loop_step_at_end this l h d) by assumption.
    apply IH; assumption.
Qed.

(** Claim C2.  An iteration of the fill loop that finds the handle at or
    beyond the end of the file transfers no byte and throws nothing: the
    loop continues in the same state, one log entry apart.  From such a
    state the loop never ends: whatever the fuel, it is exhausted. *)
Theorem SimpleFSIndexInput_readInternal_loop_no_progress_at_end `{ExternalConstants}
    this l h d (b : list byte) (offset len total : Z) (w : World) :
  FILE_EOF < 0 -> FILE_ERROR < 0 ->
  SimpleFSIndexInput.file this = Some l -> heap w !! l = Some h ->
  files (fs w) !! InputFile.path h = Some d ->
  Z.of_nat (length d) <= InputFile.position h -> int64_ok (InputFile.position h) ->
  int32_ok total -> total < len ->
  (forall fuel,
     SimpleFSIndexInput.readInternal_loop (S fuel) this b offset len total w =
     SimpleFSIndexInput.readInternal_loop fuel this b offset len total
       (mkWorld (fs w) (heap w)
          (log w ++ [CallRead l (wrap32 (offset + total))
                       (if wrap32 (total + SimpleFSIndexInput.chunkSize this) >? len
                        then wrap32 (len - total) else SimpleFSIndexInput.chunkSize this)
                       0]))) /\
  (forall fuel,
     fst (SimpleFSIndexInput.readInternal_loop fuel this b offset len total w) = OutOfFuel).
Proof.
  intros Heof Herr Hfile Hl Hd Hend Hpos Htotal Hlt. split.
  - intros fuel. apply (readInternal_loop_step_at_end this l h d); assumption.
  - intros fuel. apply (readInternal_loop_spins_at_end this l h d); assumption.
Qed.

Lemma SimpleFSIndexInput_readInternal_loop_no_progress_at_end_witness :
  fst (@SimpleFSIndexInput.readInternal_loop sample_constants 1000 (sample_stream 3 2)
         [] 0 1 0 (sample_world 3)) = OutOfFuel.
Proof.
  refine (proj2 (@SimpleFSIndexInput_readInternal_loop_no_progress_at_end sample_constants
           (sample_stream 3 2) 0%nat (sample_handle 3) sample_bytes [] 0 1 0 (sample_world 3)
           _ _ _ _ _ _ _ _ _) 1000%nat).
  - reflexivity.
  - reflexivity.
  - reflexivity.
  - reflexivity.
  - reflexivity.
  - simpl. lia.
  - unfold int64_ok, INT64_MIN, INT64_MAX. simpl. lia.
  - unfold int32_ok, INT32_MIN, INT32_MAX. lia.
  - lia.
Defined.

(** The loop on a request that asks for more bytes than the file holds
    after the position of the handle: each iteration transfers what is
    there, none throws, and the fuel runs out.  This holds for every chunk
    size: an iteration never transfers more than the file has left, which
    is less than what is missing. *)
Lemma readInternal_loop_past_end `{ExternalConstants} this l d offset len :
  FILE_EOF < 0 -> FILE_ERROR < 0 ->
  SimpleFSIndexInput.file this = Some l ->
  int32_ok len ->
  int64_ok (Z.of_nat (length d)) ->
  forall fuel b total (w : World) h,
    heap w !! l = Some h -> files (fs w) !! InputFile.path h = Some d ->
    0 <= InputFile.position h <= Z.of_nat (length d) ->
    0 <= total ->
    InputFile.position h + (len - total) > Z.of_nat (length d) ->
    fst (SimpleFSIndexInput.readInternal_loop fuel this b offset len total w) = OutOfFuel.
Proof.
  intros Heof Herr Hfile Hlen Hsize.
  unfold int32_ok, INT32_MIN, INT32_MAX in Hlen.
  unfold int64_ok, INT64_MIN, INT64_MAX in Hsize.
  induction fuel as [|fuel IH]; intros b total w h Hl Hd Hp Ht Hreq;
    cbn [SimpleFSIndexInput.readInternal_loop];
    destruct (Z.ltb_spec total len) as [Hlt|]; try lia; [reflexivity|].
  set (rl := if wrap32 (total + SimpleFSIndexInput.chunkSize this) >? len
             then wrap32 (len - total) else SimpleFSIndexInput.chunkSize this).
  rewrite Hfile. unfold bind. rewrite (call_read_Some l h) by assumption.
  rewrite (InputFile_read_present _ _ d) by (assumption || lia). cbv zeta.
  set (k := Z.of_nat (length (take (Z.to_nat rl) (drop (Z.to_nat (InputFile.position h)) d)))).
  assert (Hk : 0 <= k /\ InputFile.position h + k <= Z.of_nat (length d)).
  { subst k. rewrite length_take, length_drop. lia. }
  rewrite (wrap32_id k) by (unfold int32_ok, INT32_MIN, INT32_MAX; lia).
  rewrite wrap64_id by (unfold int64_ok, INT64_MIN, INT64_MAX; lia).
  cbn [fst snd].
  destruct (Z.eqb_spec k FILE_EOF); [lia|].
  destruct (Z.eqb_spec k FILE_ERROR); [lia|].
  rewrite (wrap32_id (total + k)) by (unfold int32_ok, INT32_MIN, INT32_MAX; lia).
  apply (IH _ _ _ (InputFile.mk (InputFile.path h) (InputFile.position h + k)
                     (InputFile.length h))); simpl; try assumption; try lia.
  apply lookup_insert_eq.
Qed.

(** Claim C1.  A fill that asks for [len] bytes from the logical position
    [n] of the stream, where the file holds fewer than [n + len] bytes,
    does not throw "Read past EOF": the reads transfer the bytes that are
    left, then return 0 for ever, and the loop runs until the fuel is
    exhausted, whatever the fuel and whatever the chunk size.  Nothing
    comes back to the caller, neither a short result nor a failure.  ([n]
    lies within the length the handle recorded, so that the reconciliation
    succeeds; the file itself may have shrunk since.) *)
Theorem SimpleFSIndexInput_readInternal_past_end_diverges `{ExternalConstants}
    this l h d (b : list byte) (offset len : Z) (w : World) :
  FILE_EOF < 0 -> FILE_ERROR < 0 ->
  SimpleFSIndexInput.file this = Some l -> heap w !! l = Some h ->
  files (fs w) !! InputFile.path h = Some d ->
  int64_ok (Z.of_nat (length d)) -> int64_ok (InputFile.length h) ->
  int32_ok len ->
  0 <= SimpleFSIndexInput.getFilePointer this <= InputFile.length h ->
  0 < len ->
  SimpleFSIndexInput.getFilePointer this + len > Z.of_nat (length d) ->
  forall fuel,
    fst (SimpleFSIndexInput.readInternal fuel this b offset len w) = OutOfFuel.
Proof.
  intros Heof Herr Hfile Hl Hd Hsize Hsnapshot Hlen32 Hfp Hlen Hreq fuel.
  assert (Hloop : forall (w1 : World) h1,
    heap w1 !! l = Some h1 -> fs w1 = fs w ->
    InputFile.path h1 = InputFile.path h ->
    InputFile.position h1 = SimpleFSIndexInput.getFilePointer this ->
    fst (SimpleFSIndexInput.readInternal_loop fuel this b offset len 0 w1) = OutOfFuel).
  { intros w1 h1 Hl1 Hfs1 Hpath1 Hpos1.
    assert (Hd1 : files (fs w1) !! InputFile.path h1 = Some d) by (rewrite Hfs1, Hpath1; exact Hd).
    destruct (Z.le_gt_cases (Z.of_nat (length d)) (InputFile.position h1)) as [Hend|Hin].
    - apply (readInternal_loop_spins_at_end this l h1 d); try assumption.
      + rewrite Hpos1. unfold int64_ok, INT64_MIN, INT64_MAX in *. lia.
      + unfold int32_ok, INT32_MIN, INT32_MAX. lia.
    - apply (readInternal_loop_past_end this l d offset len Heof Herr Hfile Hlen32 Hsize
               fuel b 0 w1 h1); try assumption; lia. }
  rewrite (readInternal_unfold fuel this l h) by assumption. cbv zeta.
  case_decide as Heq.
  - apply (Hloop w h); auto.
  - rewrite decide_False by lia.
    apply (Hloop _ (InputFile.mk (InputFile.path h)
                      (SimpleFSIndexInput.getFilePointer this) (InputFile.length h)));
      try reflexivity.
    simpl. apply lookup_insert_eq.
Qed.

Lemma SimpleFSIndexInput_readInternal_past_end_diverges_witness :
  fst (@SimpleFSIndexInput.readInternal sample_constants 1000 (sample_stream 2 4)
         [Byte.x00; Byte.x00] 0 2 (sample_world 0)) = OutOfFuel.
Proof.
  refine (@SimpleFSIndexInput_readInternal_past_end_diverges sample_constants
           (sample_stream 2 4) 0%nat (sample_handle 0) sample_bytes
           [Byte.x00; Byte.x00] 0 2 (sample_world 0) _ _ _ _ _ _ _ _ _ _ _ 1000%nat).
  - reflexivity.
  - reflexivity.
  - reflexivity.
  - reflexivity.
  - reflexivity.
  - vm_compute. split; discriminate.
  - vm_compute. split; discriminate.
  - vm_compute. split; discriminate.
  - vm_compute. split; discriminate.
  - reflexivity.
  - reflexivity.
Defined.

(** ** Fills within the file *)

Lemma store_bytes_app (b : list byte) (offset : Z) (xs ys : list byte) :
  0 <= offset ->
  store_bytes (store_bytes b offset xs) (offset + Z.of_nat (length xs)) ys
  = store_bytes b offset (xs ++ ys).
Proof.
  intros Ho. unfold store_bytes.
  destruct (Z.ltb_spec offset 0); [lia|].
  destruct (Z.ltb_spec (offset + Z.of_nat (length xs)) 0); [lia|].
  rewrite list_inserts_app_l. f_equal. lia.
Qed.

Lemma slice_split (d : list byte) (p n m : Z) :
  0 <= p -> 0 <= n -> 0 <= m ->
  slice d p n ++ slice d (p + n) m = slice d p (n + m).
Proof.
  intros Hp Hn Hm. unfold slice.
  replace (Z.to_nat (p + n)) with (Z.to_nat p + Z.to_nat n)%nat by lia.
  rewrite <- drop_drop, take_take_drop. f_equal. lia.
Qed.

Lemma slice_length (d : list byte) (p n : Z) :
  0 <= p -> 0 <= n -> p + n <= Z.of_nat (length d) ->
  Z.of_nat (length (slice d p n)) = n.
Proof.
  intros Hp Hn Hle. unfold slice. rewrite length_take_drop by assumption. lia.
Qed.

Lemma store_bytes_splice (b : list byte) (offset : Z) (bs : list byte) :
  0 <= offset -> offset + Z.of_nat (length bs) <= Z.of_nat (length b) ->
  store_bytes b offset bs = splice b offset bs.
Proof.
  intros Ho Hroom. unfold store_bytes, splice.
  destruct (Z.ltb_spec offset 0); [lia|].
  set (i := Z.to_nat offset).
  rewrite <- (take_drop i b) at 1.
  rewrite <- (take_drop (length bs) (drop i b)) at 1.
  replace i with (length (take i b) + 0)%nat at 1
    by (rewrite length_take; lia).
  rewrite list_inserts_app_r.
  rewrite list_inserts_0_r by (rewrite length_take, length_drop; lia).
  rewrite drop_drop. reflexivity.
Qed.

(** The loop on a request that the file can satisfy, for every chunk size
    of [int32_t] that lets [total + chunkSize] stay within [int32_t]: the
    request fits in one chunk, or [len + chunkSize] does not overflow. *)
Lemma readInternal_loop_in_file `{ExternalConstants} this l d offset len :
  FILE_EOF < 0 -> FILE_ERROR < 0 ->
  SimpleFSIndexInput.file this = Some l ->
  0 < SimpleFSIndexInput.chunkSize this <= INT32_MAX ->
  0 <= offset -> offset + len <= INT32_MAX ->
  int64_ok (Z.of_nat (length d)) ->
  forall fuel b total (w : World) h,
    heap w !! l = Some h -> files (fs w) !! InputFile.path h = Some d ->
    0 <= InputFile.position h -> 0 <= total <= len ->
    InputFile.position h + (len - total) <= Z.of_nat (length d) ->
    len - total <= Z.of_nat fuel ->
    len + SimpleFSIndexInput.chunkSize this <= INT32_MAX \/
      (total = 0 /\ len <= SimpleFSIndexInput.chunkSize this) ->
    exists w',
      SimpleFSIndexInput.readInternal_loop fuel this b offset len total w =
        (Returns (store_bytes b (offset + total)
                    (slice d (InputFile.position h) (len - total))), w') /\
      fs w' = fs w /\
      heap w' !! l = Some (InputFile.mk (InputFile.path h)
                             (InputFile.position h + (len - total)) (InputFile.length h)).
Proof.
  intros Heof Herr Hfile Hchunk Hoff Hoffsum Hsize.
  unfold INT32_MAX in Hchunk, Hoffsum. unfold int64_ok, INT64_MIN, INT64_MAX in Hsize.
  assert (Hdone : forall fuel b total (w : World) h,
    heap w !! l = Some h -> total = len ->
    exists w',
      SimpleFSIndexInput.readInternal_loop fuel this b offset len total w =
        (Returns (store_bytes b (offset + total)
                    (slice d (InputFile.position h) (len - total))), w') /\
      fs w' = fs w /\
      heap w' !! l = Some (InputFile.mk (InputFile.path h)
                             (InputFile.position h + (len - total)) (InputFile.length h))).
  { intros fuel b total w h Hl ->. exists w.
    rewrite readInternal_loop_done by lia.
    rewrite Z.sub_diag, Z.add_0_r. unfold slice. rewrite take_0, store_bytes_nil.
    destruct h. auto. }
  induction fuel as [|fuel IH]; intros b total w h Hl Hd Hp Ht Hreq Hfuel Hfit.
  - apply Hdone; [assumption|lia].
  - destruct (Z.eq_dec total len) as [Hend|Hmore]; [apply Hdone; assumption|].
    cbn [SimpleFSIndexInput.readInternal_loop].
    destruct (Z.ltb_spec total len) as [Hlt|]; [|lia].
    set (rl := if wrap32 (total + SimpleFSIndexInput.chunkSize this) >? len
               then wrap32 (len - total) else SimpleFSIndexInput.chunkSize this).
    assert (Hrl : 0 < rl <= len - total /\
                  (rl = len - total \/
                   rl = SimpleFSIndexInput.chunkSize this /\
                   total + SimpleFSIndexInput.chunkSize this <= len)).
    { subst rl. unfold INT32_MAX in Hfit. rewrite (wrap32_id (total + _))
        by (unfold int32_ok, INT32_MIN, INT32_MAX; lia).
      destruct (Z.gtb_spec (total + SimpleFSIndexInput.chunkSize this) len).
      - rewrite wrap32_id by (unfold int32_ok, INT32_MIN, INT32_MAX; lia). lia.
      - lia. }
    destruct Hrl as [Hrl Hshape].
    rewrite Hfile. unfold bind. rewrite (call_read_Some l h) by assumption.
    rewrite (InputFile_read_present _ _ d) by (assumption || lia). cbv zeta.
    fold (slice d (InputFile.position h) rl).
    rewrite slice_length by lia.
    rewrite (wrap32_id rl) by (unfold int32_ok, INT32_MIN, INT32_MAX; lia).
    rewrite wrap64_id by (unfold int64_ok, INT64_MIN, INT64_MAX; lia).
    rewrite (wrap32_id (offset + total)) by (unfold int32_ok, INT32_MIN, INT32_MAX; lia).
    cbn [fst snd].
    destruct (Z.eqb_spec rl FILE_EOF); [lia|].
    destruct (Z.eqb_spec rl FILE_ERROR); [lia|].
    rewrite (wrap32_id (total + rl)) by (unfold int32_ok, INT32_MIN, INT32_MAX; lia).
    match goal with |- context [SimpleFSIndexInput.readInternal_loop fuel this ?b1 _ _ _ ?w1] =>
      assert (Hrest : exists w',
        SimpleFSIndexInput.readInternal_loop fuel this b1 offset len (total + rl) w1 =
          (Returns (store_bytes b1 (offset + (total + rl))
                      (slice d (InputFile.position h + rl) (len - (total + rl)))), w') /\
        fs w' = fs w /\
        heap w' !! l = Some (InputFile.mk (InputFile.path h)
                               (InputFile.position h + rl + (len - (total + rl)))
                               (InputFile.length h)))
    end.
    { destruct (Z.eq_dec (total + rl) len) as [Hlast|Hnext].
      - match goal with |- context [SimpleFSIndexInput.readInternal_loop fuel this ?b1 _ _ _ ?w1] =>
          destruct (Hdone fuel b1 (total + rl) w1
                      (InputFile.mk (InputFile.path h) (InputFile.position h + rl)
                         (InputFile.length h)))
            as (w' & Heq & Hfs & Hheap)
        end; simpl; [apply lookup_insert_eq | exact Hlast |].
        exists w'. auto.
      - match goal with |- context [SimpleFSIndexInput.readInternal_loop fuel this ?b1 _ _ _ ?w1] =>
          destruct (IH b1 (total + rl) w1
                      (InputFile.mk (InputFile.path h) (InputFile.position h + rl)
                         (InputFile.length h)))
            as (w' & Heq & Hfs & Hheap)
        end; simpl; try assumption; try lia.
        + apply lookup_insert_eq.
        + exists w'. auto. }
    destruct Hrest as (w' & Heq & Hfs & Hheap).
    exists w'. split; [|split; [exact Hfs|]].
    + rewrite Heq. do 2 f_equal.
      replace (offset + (total + rl))
        with (offset + total + Z.of_nat (length (slice d (InputFile.position h) rl)))
        by (rewrite slice_length; lia).
      rewrite store_bytes_app by lia.
      rewrite slice_split by lia. do 2 f_equal. lia.
    + rewrite Hheap. do 2 f_equal. lia.
Qed.

Lemma readInternal_in_file `{ExternalConstants} fuel this l h d b offset len (w : World) :
  FILE_EOF < 0 -> FILE_ERROR < 0 ->
  SimpleFSIndexInput.file this = Some l -> heap w !! l = Some h ->
  files (fs w) !! InputFile.path h = Some d ->
  int64_ok (Z.of_nat (length d)) ->
  0 < SimpleFSIndexInput.chunkSize this <= INT32_MAX ->
  len <= SimpleFSIndexInput.chunkSize this \/
    len + SimpleFSIndexInput.chunkSize this <= INT32_MAX ->
  0 <= offset -> offset + len <= INT32_MAX ->
  0 <= SimpleFSIndexInput.getFilePointer this <= InputFile.length h ->
  0 <= len ->
  SimpleFSIndexInput.getFilePointer this + len <= Z.of_nat (length d) ->
  len <= Z.of_nat fuel ->
  exists w',
    SimpleFSIndexInput.readInternal fuel this b offset len w =
      (Returns (store_bytes b offset (slice d (SimpleFSIndexInput.getFilePointer this) len)),
       w') /\
    fs w' = fs w /\
    heap w' !! l = Some (InputFile.mk (InputFile.path h)
                           (SimpleFSIndexInput.getFilePointer this + len)
                           (InputFile.length h)).
Proof.
  intros Heof Herr Hfile Hl Hd Hsize Hchunk Hfit Hoff Hoffsum Hfp Hlen Hreq Hfuel.
  assert (Hloop : forall (w1 : World),
    heap w1 !! l = Some (InputFile.mk (InputFile.path h)
                           (SimpleFSIndexInput.getFilePointer this) (InputFile.length h)) ->
    fs w1 = fs w ->
    exists w',
      SimpleFSIndexInput.readInternal_loop fuel this b offset len 0 w1 =
        (Returns (store_bytes b offset (slice d (SimpleFSIndexInput.getFilePointer this) len)),
         w') /\
      fs w' = fs w /\
      heap w' !! l = Some (InputFile.mk (InputFile.path h)
                             (SimpleFSIndexInput.getFilePointer this + len)
                             (InputFile.length h))).
  { intros w1 Hl1 Hfs1.
    destruct (readInternal_loop_in_file this l d offset len Heof Herr Hfile Hchunk
                Hoff Hoffsum Hsize fuel b 0 w1 _ Hl1)
      as (w' & Heq & Hfs & Hheap); simpl; try lia.
    - rewrite Hfs1. exact Hd.
    - exists w'. rewrite Z.add_0_r, Z.sub_0_r in Heq. rewrite Z.sub_0_r in Hheap.
      split; [exact Heq|]. split; [congruence|exact Hheap]. }
  rewrite (readInternal_unfold _ this l h) by assumption. cbv zeta.
  case_decide as Heq.
  - apply Hloop; [|reflexivity]. rewrite Hl. f_equal. destruct h. simpl in *. congruence.
  - rewrite decide_False by lia. apply Hloop; [|reflexivity].
    simpl. apply lookup_insert_eq.
Qed.

(** ** Seeking, then filling *)

(** Claim C8.  [seekInternal] does nothing at all, and [seek] returns the
    stream with its logical position set to [pos] in an unchanged world: no
    call is made on the shared handle, whose position stays as it was.  The
    next fill calls [setPosition] on the handle, once and before any read,
    exactly when the position of the handle differs from the logical
    position of the stream; apart from that call it only reads.  When the
    two positions agree the fill is its loop of reads in the world as it
    is.  When they differ and the logical position lies within the length
    the handle recorded, the loop of reads runs in the world where the
    handle stands at the logical position.  So after [seek(pos)], with
    [pos] within the recorded length, a fill of [len >= 0] bytes that the
    file can satisfy returns the bytes [pos, pos + len) of the file and
    leaves the handle at [pos + len], wherever the handle stood before the
    fill; a fill of no bytes leaves it at [pos]. *)
Theorem SimpleFSIndexInput_seek_defers_repositioning `{ExternalConstants} :
  (forall pos this w, SimpleFSIndexInput.seekInternal pos this w = (Returns tt, w)) /\
  (forall pos this w,
     SimpleFSIndexInput.seek pos this w =
       (Returns (SimpleFSIndexInput.mk
                   (BufferedIndexInput.mk
                      (BufferedIndexInput.bufferSize (SimpleFSIndexInput.base this))
                      (BufferedIndexInput.buffer (SimpleFSIndexInput.base this)) pos)
                   (SimpleFSIndexInput.file this) (SimpleFSIndexInput.path this)
                   (SimpleFSIndexInput.chunkSize this) (SimpleFSIndexInput.isClone this)),
        w)) /\
  (forall fuel this l h b offset len w,
     SimpleFSIndexInput.file this = Some l -> heap w !! l = Some h ->
     exists rest,
       log (snd (SimpleFSIndexInput.readInternal fuel this b offset len w)) =
         log w
         ++ (if decide (SimpleFSIndexInput.getFilePointer this = InputFile.position h)
             then [] else [CallSetPosition l (SimpleFSIndexInput.getFilePointer this)])
         ++ rest /\
       forallb is_CallRead rest = true) /\
  (forall fuel this l h b offset len (w : World),
     SimpleFSIndexInput.file this = Some l -> heap w !! l = Some h ->
     SimpleFSIndexInput.getFilePointer this = InputFile.position h ->
     SimpleFSIndexInput.readInternal fuel this b offset len w =
       SimpleFSIndexInput.readInternal_loop fuel this b offset len 0 w) /\
  (forall fuel this l h b offset len (w : World),
     SimpleFSIndexInput.file this = Some l -> heap w !! l = Some h ->
     SimpleFSIndexInput.getFilePointer this <> InputFile.position h ->
     0 <= SimpleFSIndexInput.getFilePointer this <= InputFile.length h ->
     SimpleFSIndexInput.readInternal fuel this b offset len w =
       SimpleFSIndexInput.readInternal_loop fuel this b offset len 0
         (mkWorld (fs w)
            (<[l := InputFile.mk (InputFile.path h)
                      (SimpleFSIndexInput.getFilePointer this) (InputFile.length h)]>
               (heap w))
            (log w ++ [CallSetPosition l (SimpleFSIndexInput.getFilePointer this)]))) /\
  (forall fuel pos this l h d (b : list byte) offset len (w : World),
     FILE_EOF < 0 -> FILE_ERROR < 0 ->
     SimpleFSIndexInput.file this = Some l -> heap w !! l = Some h ->
     files (fs w) !! InputFile.path h = Some d ->
     int64_ok (Z.of_nat (length d)) ->
     0 < SimpleFSIndexInput.chunkSize this <= INT32_MAX ->
     len <= SimpleFSIndexInput.chunkSize this \/
       len + SimpleFSIndexInput.chunkSize this <= INT32_MAX ->
     0 <= offset -> offset + len <= INT32_MAX ->
     offset + len <= Z.of_nat (length b) ->
     0 <= pos <= InputFile.length h ->
     0 <= len -> pos + len <= Z.of_nat (length d) ->
     len <= Z.of_nat fuel ->
     exists this' w',
       SimpleFSIndexInput.seek pos this w = (Returns this', w) /\
       SimpleFSIndexInput.readInternal fuel this' b offset len w =
         (Returns (splice b offset (slice d pos len)), w') /\
       heap w' !! l = Some (InputFile.mk (InputFile.path h) (pos + len)
                              (InputFile.length h))).
Proof.
  split; [|split; [|split; [|split; [|split]]]].
  - reflexivity.
  - reflexivity.
  - intros fuel this l h b offset len w Hfile Hl.
    rewrite <- reconciliation_decide. apply readInternal_log; assumption.
  - intros fuel this l h b offset len w Hfile Hl Heq.
    rewrite (readInternal_unfold fuel this l h) by assumption. cbv zeta.
    rewrite decide_True by assumption. reflexivity.
  - intros fuel this l h b offset len w Hfile Hl Hne Hfp.
    rewrite (readInternal_unfold fuel this l h) by assumption. cbv zeta.
    rewrite decide_False by assumption. rewrite decide_False by lia. reflexivity.
  - intros fuel pos this l h d b offset len w Heof Herr Hfile Hl Hd Hsize Hchunk Hfit
      Hoff Hoffsum Hroom Hpos Hlen Hreq Hfuel.
    eexists.
    destruct (readInternal_in_file fuel
                (SimpleFSIndexInput.mk
                   (BufferedIndexInput.mk
                      (BufferedIndexInput.bufferSize (SimpleFSIndexInput.base this))
                      (BufferedIndexInput.buffer (SimpleFSIndexInput.base this)) pos)
                   (SimpleFSIndexInput.file this) (SimpleFSIndexInput.path this)
                   (SimpleFSIndexInput.chunkSize this) (SimpleFSIndexInput.isClone this))
                l h d b offset len w)
      as (w' & Heq & _ & Hheap); try assumption;
      try (unfold SimpleFSIndexInput.getFilePointer, BufferedIndexInput.getFilePointer;
           simpl; lia).
    unfold SimpleFSIndexInput.getFilePointer, BufferedIndexInput.getFilePointer in Heq, Hheap.
    simpl in Heq, Hheap.
    exists w'. split; [reflexivity|]. split; [|exact Hheap].
    unfold BufferedIndexInput.seek. rewrite Heq.
    rewrite store_bytes_splice; [reflexivity|assumption|].
    rewrite slice_length; lia.
Qed.

Lemma SimpleFSIndexInput_seek_defers_repositioning_witness :
  SimpleFSIndexInput.seek 2 (sample_stream 0 2) (sample_world 0) =
    (Returns (sample_stream 2 2), sample_world 0) /\
  (exists rest,
     log (snd (@SimpleFSIndexInput.readInternal sample_constants 4 (sample_stream 2 2)
                 [] 0 1 (sample_world 0))) =
       [] ++ [CallSetPosition 0%nat 2] ++ rest /\
     forallb is_CallRead rest = true) /\
  (exists this' w',
     SimpleFSIndexInput.seek 2 (sample_stream 0 2) (sample_world 0) =
       (Returns this', sample_world 0) /\
     @SimpleFSIndexInput.readInternal sample_constants 4 this' [Byte.x00] 0 1
       (sample_world 0) =
       (Returns (splice [Byte.x00] 0 (slice sample_bytes 2 1)), w') /\
     heap w' !! 0%nat = Some (InputFile.mk "segments" (2 + 1) 3)).
Proof.
  destruct (@SimpleFSIndexInput_seek_defers_repositioning sample_constants)
    as (_ & Hseek & Hlog & _ & _ & Hfill).
  split; [|split].
  - apply Hseek.
  - apply (Hlog 4%nat (sample_stream 2 2) 0%nat (sample_handle 0) [] 0 1 (sample_world 0));
      reflexivity.
  - apply (Hfill 4%nat 2 (sample_stream 0 2) 0%nat (sample_handle 0) sample_bytes
             [Byte.x00] 0 1 (sample_world 0));
      try reflexivity;
      try (left; vm_compute; discriminate);
      vm_compute; repeat split; first [reflexivity | discriminate].
Defined.


(** ** The output stream after [close] *)

Lemma SimpleFSIndexOutput_close_result this (w : World) this1 (w1 : World) :
  SimpleFSIndexOutput.isOpen this = true ->
  SimpleFSIndexOutput.close this w = (Returns this1, w1) ->
  SimpleFSIndexOutput.file this1 = None /\ SimpleFSIndexOutput.isOpen this1 = false.
Proof.
  intros Hopen. unfold SimpleFSIndexOutput.close. rewrite Hopen. unfold bind, ret.
  destruct (SimpleFSIndexOutput.BufferedIndexOutput_close this w) as [[a| | |] w'];
    intros Heq; inversion Heq; subst; simpl; auto.
Qed.

(** Claim C4.  After a [close()] that returned, a second [close()] returns
    the same stream in the same world: it throws nothing and touches no
    file.  A buffer handed to [flushBuffer] after that [close()] meets the
    null file pointer, and so does [OutputFile::write] after
    [OutputFile::close]: the outcome is the dereference of a null pointer,
    not the exception "file is closed". *)
Theorem SimpleFSIndexOutput_use_after_close this (w : World) this1 (w1 : World) :
  SimpleFSIndexOutput.isOpen this = true ->
  SimpleFSIndexOutput.close this w = (Returns this1, w1) ->
  SimpleFSIndexOutput.close this1 w1 = (Returns this1, w1) /\
  (forall b offset len,
     SimpleFSIndexOutput.flushBuffer b offset len this1 w1 = (NullDeref, w1)) /\
  (forall f b offset len,
     OutputFile.write b offset len (OutputFile.close f) w1 = (NullDeref, w1)).
Proof.
  intros Hopen Hclose.
  destruct (SimpleFSIndexOutput_close_result this w this1 w1 Hopen Hclose) as [Hfile Hclosed].
  split; [|split].
  - unfold SimpleFSIndexOutput.close. rewrite Hclosed. reflexivity.
  - intros b offset len. unfold SimpleFSIndexOutput.flushBuffer. rewrite Hfile. reflexivity.
  - intros f b offset len. reflexivity.
Qed.

Lemma SimpleFSIndexOutput_use_after_close_witness :
  SimpleFSIndexOutput.close sample_output_closed sample_output_world_closed =
    (Returns sample_output_closed, sample_output_world_closed) /\
  SimpleFSIndexOutput.flushBuffer [Byte.x02] 0 1 sample_output_closed
    sample_output_world_closed = (NullDeref, sample_output_world_closed) /\
  OutputFile.write [Byte.x02] 0 1
    (OutputFile.close (OutputFile.mk "out" (Some (ofstream.mk true false false false "out" 1))))
    sample_output_world_closed = (NullDeref, sample_output_world_closed).
Proof.
  destruct (SimpleFSIndexOutput_use_after_close sample_output sample_output_world
              sample_output_closed sample_output_world_closed)
    as (Hagain & Hflush & Hwrite).
  - reflexivity.
  - vm_compute. reflexivity.
  - split; [exact Hagain|]. split; [apply Hflush | apply Hwrite].
Defined.

(** ** The exception "file is closed" *)

(** Every [OutputFile] the constructor returns is [open_or_reset], and the
    methods keep it so. *)
Lemma OutputFile_new_open_or_reset (path : string) (w : World) this (w' : World) :
  OutputFile.new path w = (Returns this, w') -> open_or_reset this.
Proof.
  unfold OutputFile.new, open_or_reset, OutputFile.isValid.
  destruct (ofstream.open (fs w) path) as [f fs']. simpl.
  destruct (ofstream.is_open f) eqn:Hopen; simpl.
  - destruct (ofstream.good f); simpl; intros Heq; inversion Heq; subst; simpl; assumption.
  - intros Heq. discriminate.
Qed.

Lemma OutputFile_write_open_or_reset b offset len this (w : World) r this' (w' : World) :
  open_or_reset this ->
  OutputFile.write b offset len this w = (Returns (r, this'), w') -> open_or_reset this'.
Proof.
  unfold open_or_reset, OutputFile.write.
  destruct (OutputFile.file this) as [f|]; [|discriminate].
  intros Hopen. rewrite Hopen. simpl.
  destruct (ofstream.write _ _ f (fs w)) as [f' fs'] eqn:Hw.
  assert (Hopen' : ofstream.is_open f' = true).
  { unfold ofstream.write in Hw.
    destruct (ofstream.good f); [|inversion Hw; subst; exact Hopen].
    destruct ((0 <=? len) && ofstream.is_open f); [|inversion Hw; subst; exact Hopen].
    destruct (files (fs w) !! ofstream.target f); inversion Hw; subst; exact Hopen. }
  destruct (negb (ofstream.good f')); intros Heq; inversion Heq; subst. exact Hopen'.
Qed.

Lemma OutputFile_close_open_or_reset this : open_or_reset (OutputFile.close this).
Proof. exact I. Qed.

(** On such a handle [write] never throws "file is closed": where the
    stream pointer is reset the call dereferences it, and where it is not
    the stream is open. *)
Lemma OutputFile_write_never_closed b offset len this (w : World) :
  open_or_reset this ->
  fst (OutputFile.write b offset len this w)
    <> Throws (IOException ("file is closed: " +:+ OutputFile.path this)).
Proof.
  unfold open_or_reset, OutputFile.write.
  destruct (OutputFile.file this) as [f|]; [|discriminate].
  intros Hopen. rewrite Hopen. simpl.
  destruct (ofstream.write _ _ f (fs w)) as [f' fs'].
  destruct (negb (ofstream.good f')); simpl; [|discriminate].
  intros Heq. discriminate Heq.
Qed.


(** * Further properties of the code *)

(** ** What a read can return *)

Lemma InputFile_read_never_reports_eof_witness :
  fst (fst (@InputFile.read sample_constants sample_fs (sample_handle 3) [] 0 1))
    <> @FILE_EOF sample_constants.
Proof.
  apply (@InputFile_read_never_reports_eof sample_constants sample_fs (sample_handle 3) [] 0 1).
  - reflexivity.
  - discriminate.
  - vm_compute. split; discriminate.
Defined.

(** The result of a read that asks for [len >= 0] bytes: the error
    sentinel, or a count between 0 and [len]. *)
Lemma InputFile_read_result `{ExternalConstants} disk (this : InputFile.t) b offset len :
  0 <= len -> int32_ok len ->
  fst (fst (InputFile.read disk this b offset len)) = FILE_ERROR \/
  0 <= fst (fst (InputFile.read disk this b offset len)) <= len.
Proof.
  intros Hlen Hlen32.
  destruct (files disk !! InputFile.path this) as [d|] eqn:Hd;
    [destruct (Z.le_gt_cases 0 (InputFile.position this)) as [Hp|Hp]|].
  - right. rewrite (InputFile_read_present _ _ d) by assumption. cbn [fst].
    unfold int32_ok, INT32_MIN, INT32_MAX in *.
    rewrite wrap32_id; [|unfold int32_ok, INT32_MIN, INT32_MAX]; rewrite length_take; lia.
  - left. rewrite InputFile_read_absent by (right; lia). reflexivity.
  - left. rewrite InputFile_read_absent by (left; assumption). reflexivity.
Qed.

(** [isValid] and [read] agree on a handle that does not stand beyond the
    end of its file.  With the error sentinel negative and a requested
    length of [int32_t], for a handle whose file is missing or whose
    position is at most the size of the file: the handle is valid exactly
    when a read would not return the error sentinel, that is, exactly when
    the file exists and the position is not negative.  Positions beyond
    the end of the file are left out: there the outcome of [seekg] depends
    on the largest offset of the file system, which the stream model does
    not have. *)
Theorem InputFile_isValid_iff_read_succeeds `{ExternalConstants} disk
    (this : InputFile.t) (b : list byte) (offset len : Z) :
  FILE_ERROR < 0 -> int32_ok len ->
  (forall d, files disk !! InputFile.path this = Some d ->
             InputFile.position this <= Z.of_nat (length d)) ->
  (InputFile.isValid disk this = true <->
     fst (fst (InputFile.read disk this b offset len)) <> FILE_ERROR) /\
  (InputFile.isValid disk this = true <->
     is_Some (files disk !! InputFile.path this) /\ 0 <= InputFile.position this).
Proof.
  intros Herr Hlen _.
  assert (Hvalid : InputFile.isValid disk this = true <->
     is_Some (files disk !! InputFile.path this) /\ 0 <= InputFile.position this).
  { unfold InputFile.isValid, ifstream.open, ifstream.seekg.
    destruct (files disk !! InputFile.path this) as [d|]; simpl.
    - destruct (Z.leb_spec 0 (InputFile.position this)); simpl; split;
        try (intros; split; eauto; lia); try discriminate; intros [_ ?]; lia.
    - split; [discriminate|]. intros [[x Hx] _]. discriminate. }
  split; [|exact Hvalid].
  rewrite Hvalid.
  destruct (files disk !! InputFile.path this) as [d|] eqn:Hd;
    [destruct (Z.le_gt_cases 0 (InputFile.position this)) as [Hp|Hp]|].
  - rewrite (InputFile_read_present _ _ d) by assumption. cbn [fst].
    split; [|intros _; split; [eauto|assumption]].
    intros _. unfold int32_ok, INT32_MIN, INT32_MAX in *.
    rewrite wrap32_id; [|unfold int32_ok, INT32_MIN, INT32_MAX]; rewrite length_take; lia.
  - rewrite InputFile_read_absent by (right; lia). cbn [fst].
    split; [intros [_ ?]; lia | congruence].
  - rewrite InputFile_read_absent by (left; assumption). cbn [fst].
    split; [intros [[x Hx] _]; discriminate | congruence].
Qed.

Lemma InputFile_isValid_iff_read_succeeds_witness :
  InputFile.isValid sample_fs (sample_handle 2) = true <->
  fst (fst (@InputFile.read sample_constants sample_fs (sample_handle 2) [] 0 1))
    <> @FILE_ERROR sample_constants.
Proof.
  destruct (@InputFile_isValid_iff_read_succeeds sample_constants sample_fs
              (sample_handle 2) [] 0 1) as [Hagree _].
  - reflexivity.
  - vm_compute. split; discriminate.
  - intros d Hd. vm_compute in Hd. injection Hd as <-. vm_compute. discriminate.
  - exact Hagree.
Defined.

(** ** What a fill leaves alone *)

Lemma touches_only_ret {A} (p : option loc) (a : A) : touches_only p (ret a).
Proof. intros w. split; [reflexivity|]. intros l' _. reflexivity. Qed.

Lemma touches_only_throw {A} (p : option loc) (e : Exception) : touches_only p (@throw A e).
Proof. intros w. split; [reflexivity|]. intros l' _. reflexivity. Qed.

Lemma touches_only_bind {A B} (p : option loc) (m : M A) (f : A -> M B) :
  touches_only p m -> (forall a, touches_only p (f a)) -> touches_only p (bind m f).
Proof.
  intros Hm Hf w. unfold bind. destruct (Hm w) as [Hfs Hheap].
  destruct (m w) as [[a| | |] w']; simpl in *; try (split; assumption).
  destruct (Hf a w') as [Hfs' Hheap']. split; [congruence|].
  intros l' Hne. rewrite Hheap', Hheap by assumption. reflexivity.
Qed.

Lemma touches_only_call_getPosition (p : option loc) : touches_only p (call_getPosition p).
Proof.
  intros w. unfold call_getPosition, bind, deref. destruct p as [l|]; [|auto].
  destruct (heap w !! l); auto.
Qed.

Lemma touches_only_call_setPosition (p : option loc) position :
  touches_only p (call_setPosition p position).
Proof.
  intros w. destruct p as [l|]; [|simpl; auto].
  destruct (heap w !! l) as [h|] eqn:Hl.
  - rewrite (call_setPosition_Some l h) by assumption. simpl. split; [reflexivity|].
    intros l' Hne. apply lookup_insert_ne. congruence.
  - unfold call_setPosition, bind, deref. rewrite Hl. auto.
Qed.

Lemma touches_only_call_read `{ExternalConstants} (p : option loc) b offset len :
  touches_only p (call_read p b offset len).
Proof.
  intros w. destruct p as [l|]; [|simpl; auto].
  destruct (heap w !! l) as [h|] eqn:Hl.
  - rewrite (call_read_Some l h) by assumption. simpl. split; [reflexivity|].
    intros l' Hne. apply lookup_insert_ne. congruence.
  - unfold call_read, bind, deref. rewrite Hl. auto.
Qed.

Lemma touches_only_readInternal_loop `{ExternalConstants} fuel this b offset len total :
  touches_only (SimpleFSIndexInput.file this)
    (SimpleFSIndexInput.readInternal_loop fuel this b offset len total).
Proof.
  revert b total. induction fuel as [|fuel IH]; intros b total; simpl.
  - destruct (total <? len); [|apply touches_only_ret]. intros w. auto.
  - destruct (total <? len); [|apply touches_only_ret].
    apply touches_only_bind; [apply touches_only_call_read|].
    intros [i b']. destruct (i =? FILE_EOF); [apply touches_only_throw|].
    destruct (i =? FILE_ERROR); [apply touches_only_throw|]. apply IH.
Qed.

(** A fill, whatever its arguments and its outcome, changes no file, and no
    handle other than the one the stream holds: the streams opened on
    other files are not disturbed. *)
Theorem SimpleFSIndexInput_readInternal_frame `{ExternalConstants} fuel this
    (b : list byte) (offset len : Z) (w : World) :
  fs (snd (SimpleFSIndexInput.readInternal fuel this b offset len w)) = fs w /\
  forall l', SimpleFSIndexInput.file this <> Some l' ->
    heap (snd (SimpleFSIndexInput.readInternal fuel this b offset len w)) !! l' = heap w !! l'.
Proof.
  revert w. change (touches_only (SimpleFSIndexInput.file this)
                      (SimpleFSIndexInput.readInternal fuel this b offset len)).
  unfold SimpleFSIndexInput.readInternal.
  apply touches_only_bind; [apply touches_only_call_getPosition|]. intros p.
  apply touches_only_bind; [|intros _; apply touches_only_readInternal_loop].
  destruct (negb _); [apply touches_only_call_setPosition | apply touches_only_ret].
Qed.

Lemma SimpleFSIndexInput_readInternal_frame_witness :
  heap (snd (@SimpleFSIndexInput.readInternal sample_constants 4 (sample_stream 1 2) [] 0 2
               (mkWorld sample_fs {[ 0%nat := sample_handle 0; 1%nat := sample_handle 2 ]} [])))
    !! 1%nat = Some (sample_handle 2).
Proof.
  destruct (@SimpleFSIndexInput_readInternal_frame sample_constants 4 (sample_stream 1 2)
              [] 0 2
              (mkWorld sample_fs {[ 0%nat := sample_handle 0; 1%nat := sample_handle 2 ]} []))
    as [_ Hheap].
  rewrite Hheap; [reflexivity|]. discriminate.
Defined.

(** ** Closing an input stream *)

Lemma same_state_refl (w : World) : same_state w w.
Proof. split; reflexivity. Qed.

Lemma log_blind_ret {A} (a : A) : log_blind (ret a).
Proof. intros w1 w2 Hs. split; [reflexivity|exact Hs]. Qed.

Lemma log_blind_throw {A} (e : Exception) : log_blind (@throw A e).
Proof. intros w1 w2 Hs. split; [reflexivity|exact Hs]. Qed.

Lemma log_blind_bind {A B} (m : M A) (f : A -> M B) :
  log_blind m -> (forall a, log_blind (f a)) -> log_blind (bind m f).
Proof.
  intros Hm Hf w1 w2 Hs. unfold bind. destruct (Hm w1 w2 Hs) as [Hout Hs'].
  destruct (m w1) as [[a1| | |] w1'], (m w2) as [[a2| | |] w2'];
    simpl in *; try discriminate; try (split; [congruence|assumption]).
  injection Hout as ->. apply Hf, Hs'.
Qed.

Lemma log_blind_call_getPosition (p : option loc) : log_blind (call_getPosition p).
Proof.
  intros [f1 h1 l1] [f2 h2 l2] [Hf Hh]. simpl in *. subst.
  unfold call_getPosition, bind, deref. simpl. destruct p as [l|]; simpl.
  - destruct (h2 !! l); simpl; split; try reflexivity; split; reflexivity.
  - split; [reflexivity|]. split; reflexivity.
Qed.

Lemma log_blind_call_setPosition (p : option loc) position :
  log_blind (call_setPosition p position).
Proof.
  intros [f1 h1 l1] [f2 h2 l2] [Hf Hh]. simpl in *. subst.
  destruct p as [l|]; [|split; [reflexivity|split; reflexivity]].
  destruct (h2 !! l) as [h|] eqn:Hl.
  - rewrite !(call_setPosition_Some l h) by assumption. simpl.
    split; [reflexivity|]. split; reflexivity.
  - unfold call_setPosition, bind, deref. simpl. rewrite Hl.
    split; [reflexivity|]. split; reflexivity.
Qed.

Lemma log_blind_call_read `{ExternalConstants} (p : option loc) b offset len :
  log_blind (call_read p b offset len).
Proof.
  intros [f1 h1 l1] [f2 h2 l2] [Hf Hh]. simpl in *. subst.
  destruct p as [l|]; [|split; [reflexivity|split; reflexivity]].
  destruct (h2 !! l) as [h|] eqn:Hl.
  - rewrite !(call_read_Some l h) by assumption. simpl.
    split; [reflexivity|]. split; reflexivity.
  - unfold call_read, bind, deref. simpl. rewrite Hl.
    split; [reflexivity|]. split; reflexivity.
Qed.

Lemma log_blind_readInternal_loop `{ExternalConstants} fuel this b offset len total :
  log_blind (SimpleFSIndexInput.readInternal_loop fuel this b offset len total).
Proof.
  revert b total. induction fuel as [|fuel IH]; intros b total; simpl.
  - destruct (total <? len); [|apply log_blind_ret].
    intros w1 w2 Hs. split; [reflexivity|exact Hs].
  - destruct (total <? len); [|apply log_blind_ret].
    apply log_blind_bind; [apply log_blind_call_read|].
    intros [i b']. destruct (i =? FILE_EOF); [apply log_blind_throw|].
    destruct (i =? FILE_ERROR); [apply log_blind_throw|]. apply IH.
Qed.

Lemma log_blind_readInternal `{ExternalConstants} fuel this b offset len :
  log_blind (SimpleFSIndexInput.readInternal fuel this b offset len).
Proof.
  unfold SimpleFSIndexInput.readInternal.
  apply log_blind_bind; [apply log_blind_call_getPosition|]. intros p.
  apply log_blind_bind; [|intros _; apply log_blind_readInternal_loop].
  destruct (negb _); [apply log_blind_call_setPosition | apply log_blind_ret].
Qed.

Lemma SimpleFSIndexInput_close_same_state this (w : World) :
  same_state (snd (SimpleFSIndexInput.close this w)) w.
Proof.
  unfold SimpleFSIndexInput.close.
  destruct (negb (SimpleFSIndexInput.isClone this)); [|apply same_state_refl].
  unfold call_close, bind, deref, record, put, InputFile.close.
  destruct (SimpleFSIndexInput.file this) as [l|]; [|apply same_state_refl].
  destruct (heap w !! l) as [h|] eqn:Hl; [|apply same_state_refl].
  simpl. split; [reflexivity|]. simpl. apply insert_id, Hl.
Qed.

(** Closing an input stream, original or clone, closes nothing: the files
    and the handles are as before, and every later fill, through any
    stream, the closed one included, has the outcome it would have had
    without the [close]. *)
Theorem SimpleFSIndexInput_close_changes_no_fill `{ExternalConstants} this fuel other
    (b : list byte) (offset len : Z) (w : World) :
  fs (snd (SimpleFSIndexInput.close this w)) = fs w /\
  heap (snd (SimpleFSIndexInput.close this w)) = heap w /\
  fst (SimpleFSIndexInput.readInternal fuel other b offset len
         (snd (SimpleFSIndexInput.close this w))) =
  fst (SimpleFSIndexInput.readInternal fuel other b offset len w).
Proof.
  destruct (SimpleFSIndexInput_close_same_state this w) as [Hfs Hheap].
  split; [exact Hfs|]. split; [exact Hheap|].
  apply log_blind_readInternal. split; assumption.
Qed.

(** ** The read requests of a fill *)

Lemma readInternal_loop_requests `{ExternalConstants} this offset len :
  0 < SimpleFSIndexInput.chunkSize this ->
  len + SimpleFSIndexInput.chunkSize this <= INT32_MAX ->
  forall fuel b total (w : World),
    0 <= total ->
    exists rest,
      log (snd (SimpleFSIndexInput.readInternal_loop fuel this b offset len total w)) =
        log w ++ rest /\
      forallb (read_request_within (SimpleFSIndexInput.chunkSize this) len) rest = true.
Proof.
  intros Hchunk Hsum. unfold INT32_MAX in Hsum.
  assert (Hnone : forall (w : World), exists rest : list Event,
            log w = log w ++ rest /\
            forallb (read_request_within (SimpleFSIndexInput.chunkSize this) len) rest = true).
  { intros w. exists []. rewrite app_nil_r. auto. }
  induction fuel as [|fuel IH]; intros b total w Htotal;
    cbn [SimpleFSIndexInput.readInternal_loop];
    destruct (Z.ltb_spec total len) as [Hlt|Hge]; try apply Hnone.
  set (rl := if wrap32 (total + SimpleFSIndexInput.chunkSize this) >? len
             then wrap32 (len - total) else SimpleFSIndexInput.chunkSize this).
  assert (Hrl : 0 < rl <= SimpleFSIndexInput.chunkSize this /\ rl <= len - total).
  { subst rl. rewrite (wrap32_id (total + _))
      by (unfold int32_ok, INT32_MIN, INT32_MAX; lia).
    destruct (Z.gtb_spec (total + SimpleFSIndexInput.chunkSize this) len).
    - rewrite wrap32_id by (unfold int32_ok, INT32_MIN, INT32_MAX; lia). lia.
    - lia. }
  unfold bind.
  destruct (SimpleFSIndexInput.file this) as [l|]; [|apply Hnone].
  destruct (heap w !! l) as [h|] eqn:Hl;
    [|unfold call_read, bind, deref; rewrite Hl; apply Hnone].
  rewrite (call_read_Some l h) by assumption.
  assert (Hres := InputFile_read_result (fs w) h b (wrap32 (offset + total)) rl).
  destruct (InputFile.read (fs w) h b (wrap32 (offset + total)) rl) as [[i h'] b'].
  cbn [fst snd] in *.
  assert (Hhead : read_request_within (SimpleFSIndexInput.chunkSize this) len
                    (CallRead l (wrap32 (offset + total)) rl i) = true).
  { simpl. destruct (Z.ltb_spec 0 rl), (Z.leb_spec rl (SimpleFSIndexInput.chunkSize this)),
      (Z.leb_spec rl len); try reflexivity; lia. }
  destruct (Z.eqb_spec i FILE_EOF) as [|Hneof];
    [simpl; eexists; split; [reflexivity|]; simpl in *; rewrite Hhead; reflexivity|].
  destruct (Z.eqb_spec i FILE_ERROR) as [|Hnerr];
    [simpl; eexists; split; [reflexivity|]; simpl in *; rewrite Hhead; reflexivity|].
  destruct Hres as [Herr|Hcount];
    [lia | unfold int32_ok, INT32_MIN, INT32_MAX; lia | congruence |].
  rewrite (wrap32_id (total + i)) by (unfold int32_ok, INT32_MIN, INT32_MAX; lia).
  match goal with |- context [SimpleFSIndexInput.readInternal_loop fuel this b' _ _ _ ?w1] =>
    destruct (IH b' (total + i) w1) as (rest & Hlog & Hall); [lia|]
  end.
  exists (CallRead l (wrap32 (offset + total)) rl i :: rest). split.
  - rewrite Hlog. simpl. rewrite <- app_assoc. reflexivity.
  - cbn [forallb]. rewrite Hhead, Hall. reflexivity.
Qed.

(** The chunk size bounds every physical read: after the reconciliation a
    fill only makes [read] calls, and each of them asks for at least one
    byte, for at most [chunkSize] bytes and for at most the bytes of the
    request. *)
Theorem SimpleFSIndexInput_readInternal_requests_bounded `{ExternalConstants}
    fuel this l h (b : list byte) (offset len : Z) (w : World) :
  0 < SimpleFSIndexInput.chunkSize this ->
  len + SimpleFSIndexInput.chunkSize this <= INT32_MAX ->
  SimpleFSIndexInput.file this = Some l -> heap w !! l = Some h ->
  exists rest,
    log (snd (SimpleFSIndexInput.readInternal fuel this b offset len w)) =
      log w
      ++ (if decide (SimpleFSIndexInput.getFilePointer this = InputFile.position h)
          then [] else [CallSetPosition l (SimpleFSIndexInput.getFilePointer this)])
      ++ rest /\
    forallb (read_request_within (SimpleFSIndexInput.chunkSize this) len) rest = true.
Proof.
  intros Hchunk Hsum Hfile Hl.
  rewrite (readInternal_unfold fuel this l h) by assumption. cbv zeta.
  case_decide as Heq.
  - destruct (readInternal_loop_requests this offset len Hchunk Hsum fuel b 0 w)
      as (rest & Hlog & Hall); [lia|].
    exists rest. rewrite Hlog. auto.
  - case_decide as Hrange.
    + exists []. simpl. auto.
    + match goal with |- context [SimpleFSIndexInput.readInternal_loop _ _ _ _ _ _ ?w1] =>
        destruct (readInternal_loop_requests this offset len Hchunk Hsum fuel b 0 w1)
          as (rest & Hlog & Hall); [lia|]
      end.
      exists rest. rewrite Hlog. simpl. rewrite <- app_assoc. auto.
Qed.

Lemma SimpleFSIndexInput_readInternal_requests_bounded_witness :
  exists rest,
    log (snd (@SimpleFSIndexInput.readInternal sample_constants 4 (sample_stream 0 2)
                (replicate 3 Byte.x00) 0 3 (sample_world 0))) =
      [] ++ [] ++ rest /\
    forallb (read_request_within 2 3) rest = true.
Proof.
  apply (@SimpleFSIndexInput_readInternal_requests_bounded sample_constants 4%nat
           (sample_stream 0 2) 0%nat (sample_handle 0) (replicate 3 Byte.x00) 0 3
           (sample_world 0)).
  - reflexivity.
  - vm_compute. discriminate.
  - reflexivity.
  - reflexivity.
Defined.

(** ** A fill when the file has gone *)

(** When the file of the handle no longer exists, a fill of at least one
    byte throws, in one of two places.  If the logical position of the
    stream differs from the position of the handle and lies outside the
    length the handle recorded, the reconciliation throws: the fill ends
    with the [IOException] of [setPosition], whose message is empty, and
    has called [setPosition] and made no read.  In every other case (the
    two positions agree, or the logical position lies within the recorded
    length) the fill throws at its first read: the message is "Failed to
    read from file: " followed by the path of the stream, unless the two
    sentinels are the same number: the test for [FILE_EOF] comes first,
    and the message is then "Read past EOF". *)
Theorem SimpleFSIndexInput_readInternal_file_removed `{ExternalConstants}
    fuel this l h (b : list byte) (offset len : Z) (w : World) :
  SimpleFSIndexInput.file this = Some l -> heap w !! l = Some h ->
  files (fs w) !! InputFile.path h = None ->
  0 < len ->
  (SimpleFSIndexInput.getFilePointer this = InputFile.position h \/
   0 <= SimpleFSIndexInput.getFilePointer this <= InputFile.length h ->
   fst (SimpleFSIndexInput.readInternal (S fuel) this b offset len w) =
     Throws (IOException
               (if FILE_ERROR =? FILE_EOF then "Read past EOF"
                else "Failed to read from file: " +:+ SimpleFSIndexInput.path this))) /\
  (SimpleFSIndexInput.getFilePointer this <> InputFile.position h ->
   SimpleFSIndexInput.getFilePointer this < 0 \/
     InputFile.length h < SimpleFSIndexInput.getFilePointer this ->
   fst (SimpleFSIndexInput.readInternal fuel this b offset len w) =
     Throws (IOException EmptyString) /\
   log (snd (SimpleFSIndexInput.readInternal fuel this b offset len w)) =
     log w ++ [CallSetPosition l (SimpleFSIndexInput.getFilePointer this)]).
Proof.
  intros Hfile Hl Hnone Hlen.
  assert (Hloop : forall (w1 : World) h1,
    heap w1 !! l = Some h1 -> fs w1 = fs w -> InputFile.path h1 = InputFile.path h ->
    fst (SimpleFSIndexInput.readInternal_loop (S fuel) this b offset len 0 w1) =
      Throws (IOException
                (if FILE_ERROR =? FILE_EOF then "Read past EOF"
                 else "Failed to read from file: " +:+ SimpleFSIndexInput.path this))).
  { intros w1 h1 Hl1 Hfs1 Hpath1. cbn [SimpleFSIndexInput.readInternal_loop].
    destruct (Z.ltb_spec 0 len); [|lia].
    rewrite Hfile. unfold bind. rewrite (call_read_Some l h1) by assumption.
    rewrite InputFile_read_absent by (left; rewrite Hfs1, Hpath1; exact Hnone).
    cbn [fst snd]. destruct (FILE_ERROR =? FILE_EOF); [reflexivity|].
    rewrite Z.eqb_refl. reflexivity. }
  split.
  - intros Hfp.
    rewrite (readInternal_unfold (S fuel) this l h) by assumption. cbv zeta.
    case_decide as Heq.
    + apply (Hloop w h); auto.
    + rewrite decide_False by lia.
      apply (Hloop _ (InputFile.mk (InputFile.path h)
                        (SimpleFSIndexInput.getFilePointer this) (InputFile.length h)));
        try reflexivity.
      simpl. apply lookup_insert_eq.
  - intros Hne Hout.
    rewrite (readInternal_unfold fuel this l h) by assumption. cbv zeta.
    rewrite decide_False by assumption. rewrite decide_True by lia.
    split; reflexivity.
Qed.

Lemma SimpleFSIndexInput_readInternal_file_removed_witness :
  fst (@SimpleFSIndexInput.readInternal sample_constants 1 (sample_stream 1 2) [] 0 2
         (mkWorld (mkFileSystem ∅ ∅) {[ 0%nat := sample_handle 0 ]} [])) =
    Throws (IOException "Failed to read from file: segments") /\
  fst (@SimpleFSIndexInput.readInternal sample_constants 1 (sample_stream 5 2) [] 0 2
         (mkWorld (mkFileSystem ∅ ∅) {[ 0%nat := sample_handle 0 ]} [])) =
    Throws (IOException EmptyString).
Proof.
  split.
  - apply (@SimpleFSIndexInput_readInternal_file_removed sample_constants 0%nat
             (sample_stream 1 2) 0%nat (sample_handle 0) [] 0 2
             (mkWorld (mkFileSystem ∅ ∅) {[ 0%nat := sample_handle 0 ]} []));
      try reflexivity.
    right. vm_compute. split; discriminate.
  - apply (@SimpleFSIndexInput_readInternal_file_removed sample_constants 1%nat
             (sample_stream 5 2) 0%nat (sample_handle 0) [] 0 2
             (mkWorld (mkFileSystem ∅ ∅) {[ 0%nat := sample_handle 0 ]} []));
      try reflexivity.
    + vm_compute. discriminate.
    + right. vm_compute. reflexivity.
Defined.

(** ** What a fill within the file returns *)

(** A fill of [len >= 0] bytes at the logical position [n] of the stream
    returns as soon as the fuel covers [len] iterations, provided that
    - [n] lies within the length the handle recorded, and [n + len] within
      the file as it is;
    - the chunk size is a positive [int32_t], and the request fits in one
      chunk or [len + chunkSize] does not overflow [int32_t];
    - the range [offset, offset + len) lies within the buffer, and within
      [int32_t];
    - the sentinels are negative, and the size of the file is an
      [int64_t].
    The buffer then holds the bytes [n, n + len) of the file from index
    [offset] on and is unchanged elsewhere, the files are unchanged, and
    the handle stands at [n + len], wherever it stood before. *)
Theorem SimpleFSIndexInput_readInternal_returns_requested_bytes `{ExternalConstants}
    fuel this l h d (b : list byte) (offset len : Z) (w : World) :
  FILE_EOF < 0 -> FILE_ERROR < 0 ->
  SimpleFSIndexInput.file this = Some l -> heap w !! l = Some h ->
  files (fs w) !! InputFile.path h = Some d ->
  int64_ok (Z.of_nat (length d)) ->
  0 < SimpleFSIndexInput.chunkSize this <= INT32_MAX ->
  len <= SimpleFSIndexInput.chunkSize this \/
    len + SimpleFSIndexInput.chunkSize this <= INT32_MAX ->
  0 <= offset -> offset + len <= INT32_MAX ->
  offset + len <= Z.of_nat (length b) ->
  0 <= SimpleFSIndexInput.getFilePointer this <= InputFile.length h ->
  0 <= len ->
  SimpleFSIndexInput.getFilePointer this + len <= Z.of_nat (length d) ->
  len <= Z.of_nat fuel ->
  exists w',
    SimpleFSIndexInput.readInternal fuel this b offset len w =
      (Returns (splice b offset (slice d (SimpleFSIndexInput.getFilePointer this) len)),
       w') /\
    fs w' = fs w /\
    heap w' !! l = Some (InputFile.mk (InputFile.path h)
                           (SimpleFSIndexInput.getFilePointer this + len)
                           (InputFile.length h)).
Proof.
  intros Heof Herr Hfile Hl Hd Hsize Hchunk Hfit Hoff Hoffsum Hroom Hfp Hlen Hreq Hfuel.
  destruct (readInternal_in_file fuel this l h d b offset len w)
    as (w' & Heq & Hfs & Hheap); try assumption.
  exists w'. split; [|auto].
  rewrite Heq, store_bytes_splice; [reflexivity|assumption|].
  rewrite slice_length; lia.
Qed.

Lemma SimpleFSIndexInput_readInternal_returns_requested_bytes_witness :
  exists w',
    @SimpleFSIndexInput.readInternal sample_constants 10 (sample_stream 1 INT32_MAX)
      (replicate 3 Byte.x00) 1 2 (sample_world 0) =
      (Returns (splice (replicate 3 Byte.x00) 1 (slice sample_bytes 1 2)), w') /\
    fs w' = sample_fs /\
    heap w' !! 0%nat = Some (InputFile.mk "segments" (1 + 2) 3).
Proof.
  apply (@SimpleFSIndexInput_readInternal_returns_requested_bytes sample_constants 10%nat
           (sample_stream 1 INT32_MAX) 0%nat (sample_handle 0) sample_bytes
           (replicate 3 Byte.x00) 1 2 (sample_world 0));
    try reflexivity;
    try (left; vm_compute; discriminate);
    vm_compute; repeat split; first [reflexivity | discriminate].
Defined.

(** Two streams on one handle, an original and its clone say, do not
    disturb each other.  When each of two requests satisfies the
    conditions under which a fill returns (logical position within the
    recorded length, request within the file, chunk size a positive
    [int32_t] with the request fitting in one chunk or [len + chunkSize]
    not overflowing, range within the buffer and within [int32_t],
    negative sentinels, file size an [int64_t]), a fill through the first
    stream followed by a fill through the second returns, for each, the
    bytes of the file at that stream's own logical position. *)
Theorem SimpleFSIndexInput_fills_on_shared_handle `{ExternalConstants}
    s1 s2 l h d (b1 b2 : list byte) (offset1 len1 offset2 len2 : Z) (w : World) :
  FILE_EOF < 0 -> FILE_ERROR < 0 ->
  SimpleFSIndexInput.file s1 = Some l -> SimpleFSIndexInput.file s2 = Some l ->
  heap w !! l = Some h ->
  files (fs w) !! InputFile.path h = Some d ->
  int64_ok (Z.of_nat (length d)) ->
  0 < SimpleFSIndexInput.chunkSize s1 <= INT32_MAX ->
  0 < SimpleFSIndexInput.chunkSize s2 <= INT32_MAX ->
  len1 <= SimpleFSIndexInput.chunkSize s1 \/
    len1 + SimpleFSIndexInput.chunkSize s1 <= INT32_MAX ->
  len2 <= SimpleFSIndexInput.chunkSize s2 \/
    len2 + SimpleFSIndexInput.chunkSize s2 <= INT32_MAX ->
  0 <= offset1 -> offset1 + len1 <= INT32_MAX -> offset1 + len1 <= Z.of_nat (length b1) ->
  0 <= offset2 -> offset2 + len2 <= INT32_MAX -> offset2 + len2 <= Z.of_nat (length b2) ->
  0 <= SimpleFSIndexInput.getFilePointer s1 <= InputFile.length h ->
  0 <= SimpleFSIndexInput.getFilePointer s2 <= InputFile.length h ->
  0 <= len1 -> 0 <= len2 ->
  SimpleFSIndexInput.getFilePointer s1 + len1 <= Z.of_nat (length d) ->
  SimpleFSIndexInput.getFilePointer s2 + len2 <= Z.of_nat (length d) ->
  exists w1 w2,
    SimpleFSIndexInput.readInternal (Z.to_nat len1) s1 b1 offset1 len1 w =
      (Returns (splice b1 offset1 (slice d (SimpleFSIndexInput.getFilePointer s1) len1)),
       w1) /\
    SimpleFSIndexInput.readInternal (Z.to_nat len2) s2 b2 offset2 len2 w1 =
      (Returns (splice b2 offset2 (slice d (SimpleFSIndexInput.getFilePointer s2) len2)),
       w2).
Proof.
  intros Heof Herr Hfile1 Hfile2 Hl Hd Hsize Hchunk1 Hchunk2 Hfit1 Hfit2
    Hoff1 Hoffsum1 Hroom1 Hoff2 Hoffsum2 Hroom2 Hfp1 Hfp2 Hlen1 Hlen2 Hreq1 Hreq2.
  destruct (readInternal_in_file (Z.to_nat len1) s1 l h d b1 offset1 len1 w)
    as (w1 & Heq1 & Hfs1 & Hheap1); try assumption; try lia.
  destruct (readInternal_in_file (Z.to_nat len2) s2 l _ d b2 offset2 len2 w1
              Heof Herr Hfile2 Hheap1)
    as (w2 & Heq2 & _ & _); simpl; try assumption; try lia.
  - rewrite Hfs1. exact Hd.
  - exists w1, w2.
    rewrite Heq1, Heq2, !store_bytes_splice; try assumption;
      try (rewrite slice_length; lia).
    split; reflexivity.
Qed.

Lemma SimpleFSIndexInput_fills_on_shared_handle_witness :
  exists w1 w2,
    @SimpleFSIndexInput.readInternal sample_constants (Z.to_nat 3) (sample_stream 0 2)
      (replicate 3 Byte.x00) 0 3 (sample_world 0) =
      (Returns (splice (replicate 3 Byte.x00) 0 (slice sample_bytes 0 3)), w1) /\
    @SimpleFSIndexInput.readInternal sample_constants (Z.to_nat 2) (sample_stream 1 2)
      (replicate 3 Byte.x00) 0 2 w1 =
      (Returns (splice (replicate 3 Byte.x00) 0 (slice sample_bytes 1 2)), w2).
Proof.
  apply (@SimpleFSIndexInput_fills_on_shared_handle sample_constants
           (sample_stream 0 2) (sample_stream 1 2) 0%nat (sample_handle 0) sample_bytes
           (replicate 3 Byte.x00) (replicate 3 Byte.x00) 0 3 0 2 (sample_world 0));
    try reflexivity;
    try (right; vm_compute; discriminate);
    vm_compute; repeat split; first [reflexivity | discriminate].
Defined.

(** ** Opening an output stream *)

Lemma SimpleFSIndexOutput_new_writable (path : string) (w : World) :
  path ∉ readonly (fs w) ->
  SimpleFSIndexOutput.new path w =
    (Returns (SimpleFSIndexOutput.mk BufferedIndexOutput.new
                (Some (OutputFile.mk path (Some (ofstream.mk true false false false path 0))))
                true),
     mkWorld (set_files (<[path := []]> (files (fs w))) (fs w)) (heap w) (log w)).
Proof.
  intros Hw. unfold SimpleFSIndexOutput.new, bind, OutputFile.new, ofstream.open.
  rewrite bool_decide_eq_false_2 by assumption. reflexivity.
Qed.

(** The constructor of the output stream.  On a path that cannot be opened
    for writing it throws "failed to open file for write: " followed by
    the path, and the world is as before.  Otherwise it returns a stream
    with [isOpen = true]; the file exists and is empty, whatever it held
    before, and the other files are untouched. *)
Theorem SimpleFSIndexOutput_new_outcome (path : string) (w : World) :
  (path ∈ readonly (fs w) ->
     SimpleFSIndexOutput.new path w =
       (Throws (IOException ("failed to open file for write: " +:+ path)), w)) /\
  (path ∉ readonly (fs w) ->
     exists this w',
       SimpleFSIndexOutput.new path w = (Returns this, w') /\
       SimpleFSIndexOutput.isOpen this = true /\
       (exists f, SimpleFSIndexOutput.file this = Some f /\ OutputFile.isValid f = true) /\
       files (fs w') !! path = Some [] /\
       (forall p, p <> path -> files (fs w') !! p = files (fs w) !! p) /\
       heap w' = heap w).
Proof.
  split.
  - intros Hro. unfold SimpleFSIndexOutput.new, bind, OutputFile.new, ofstream.open.
    rewrite bool_decide_eq_true_2 by assumption. simpl. destruct w. reflexivity.
  - intros Hw. rewrite SimpleFSIndexOutput_new_writable by assumption.
    do 2 eexists. split; [reflexivity|]. simpl.
    split; [reflexivity|]. split; [eexists; split; reflexivity|].
    split; [apply lookup_insert_eq|]. split; [|reflexivity].
    intros p Hne. apply lookup_insert_ne. congruence.
Qed.

Lemma SimpleFSIndexOutput_new_outcome_witness :
  SimpleFSIndexOutput.new "locked" sample_readonly_world =
    (Throws (IOException "failed to open file for write: locked"), sample_readonly_world) /\
  exists this w',
    SimpleFSIndexOutput.new "segments" sample_readonly_world = (Returns this, w') /\
    files (fs w') !! "segments" = Some [].
Proof.
  split.
  - apply (proj1 (SimpleFSIndexOutput_new_outcome "locked" sample_readonly_world)).
    vm_compute. reflexivity.
  - destruct (proj2 (SimpleFSIndexOutput_new_outcome "segments" sample_readonly_world))
      as (this & w' & Hnew & _ & _ & Hfile & _).
    + intros Hin. vm_compute in Hin. discriminate.
    + exists this, w'. split; assumption.
Defined.

(** ** Flushing buffers to the file *)

Lemma flushBuffer_appending (path : string) (d b : list byte) (offset len : Z)
    (this : SimpleFSIndexOutput.t) (w : World) :
  0 <= len ->
  appending path d this w ->
  exists this' w',
    SimpleFSIndexOutput.flushBuffer b offset len this w = (Returns this', w') /\
    appending path (d ++ slice b offset len) this' w' /\
    heap w' = heap w /\ log w' = log w /\
    (forall p, p <> path -> files (fs w') !! p = files (fs w) !! p).
Proof.
  intros Hlen (f & Hfile & Hopen & Hgood & Htarget & Hpos & Hd).
  unfold SimpleFSIndexOutput.flushBuffer. rewrite Hfile.
  unfold bind, OutputFile.write. cbn [OutputFile.file OutputFile.path]. rewrite Hopen.
  cbn [negb]. unfold ofstream.write.
  rewrite Hgood, Hopen, Htarget, Hd, Hpos, Nat2Z.id.
  destruct (Z.leb_spec 0 len) as [_|]; [|lia]. cbn [andb].
  fold (slice b offset len).
  rewrite firstn_all, Nat.sub_diag. cbn [replicate app].
  rewrite drop_ge by lia. rewrite app_nil_r.
  assert (Hgood' : forall q, ofstream.good
            (ofstream.mk true (ofstream.badbit f) (ofstream.failbit f)
               (ofstream.eofbit f) path q) = true).
  { intros q. unfold ofstream.good in *. exact Hgood. }
  rewrite Hgood'. cbn [negb snd OutputFile.flush OutputFile.file OutputFile.path
                         ofstream.is_open ofstream.flush ret].
  do 2 eexists. split; [reflexivity|]. split; [|split; [reflexivity|split; [reflexivity|]]].
  - eexists. split; [reflexivity|]. cbn.
    split; [reflexivity|]. split; [apply Hgood'|]. split; [reflexivity|].
    split; [rewrite length_app; lia | apply lookup_insert_eq].
  - intros p Hne. cbn. apply lookup_insert_ne. congruence.
Qed.

Lemma request_in_range_length (b : list byte) (offset len : Z) :
  request_in_range (b, offset, len) = true -> 0 <= len.
Proof.
  unfold request_in_range. intros Hr.
  destruct (Z.leb_spec 0 offset), (Z.leb_spec 0 len); simpl in Hr;
    try discriminate; lia.
Qed.

Lemma flushBuffer_all_appending (path : string) (requests : list flush_request) :
  forallb request_in_range requests = true ->
  forall (d : list byte) (this : SimpleFSIndexOutput.t) (w : World),
    appending path d this w ->
    exists this' w',
      flushBuffer_all requests this w = (Returns this', w') /\
      appending path (d ++ concat (map request_bytes requests)) this' w' /\
      heap w' = heap w /\ log w' = log w /\
      (forall p, p <> path -> files (fs w') !! p = files (fs w) !! p).
Proof.
  induction requests as [|[[b offset] len] requests IH]; intros Hrange d this w Happ.
  - exists this, w. simpl. rewrite app_nil_r. auto.
  - cbn [forallb] in Hrange. apply andb_prop in Hrange as [Hhead Hrest].
    destruct (flushBuffer_appending path d b offset len this w
                (request_in_range_length _ _ _ Hhead) Happ)
      as (this1 & w1 & Heq1 & Happ1 & Hheap1 & Hlog1 & Hfiles1).
    destruct (IH Hrest _ this1 w1 Happ1)
      as (this2 & w2 & Heq2 & Happ2 & Hheap2 & Hlog2 & Hfiles2).
    exists this2, w2. cbn [flushBuffer_all]. unfold bind. rewrite Heq1.
    split; [exact Heq2|]. split.
    + cbn [map concat request_bytes]. rewrite app_assoc. exact Happ2.
    + split; [congruence|]. split; [congruence|].
      intros p Hne. rewrite Hfiles2, Hfiles1 by assumption. reflexivity.
Qed.

Lemma SimpleFSIndexOutput_new_appending (path : string) (w : World) this (w' : World) :
  SimpleFSIndexOutput.new path w = (Returns this, w') ->
  path ∉ readonly (fs w) ->
  appending path [] this w'.
Proof.
  intros Hnew Hw. rewrite SimpleFSIndexOutput_new_writable in Hnew by assumption.
  injection Hnew as <- <-. eexists. split; [reflexivity|]. simpl.
  repeat split; try reflexivity. apply lookup_insert_eq.
Qed.

(** A new output stream followed by any number of [flushBuffer] calls
    leaves a file that holds the flushed bytes, in the order of the calls
    and with nothing in between; no other file is touched. *)
Theorem SimpleFSIndexOutput_flushes_concatenate (path : string)
    (requests : list flush_request) (w : World) :
  path ∉ readonly (fs w) ->
  forallb request_in_range requests = true ->
  exists this w',
    (out <- SimpleFSIndexOutput.new path ;; flushBuffer_all requests out) w =
      (Returns this, w') /\
    files (fs w') !! path = Some (concat (map request_bytes requests)) /\
    (forall p, p <> path -> files (fs w') !! p = files (fs w) !! p).
Proof.
  intros Hw Hrange. unfold bind.
  destruct (SimpleFSIndexOutput.new path w) as [out w1] eqn:Hnew.
  pose proof Hnew as Hnew'. rewrite SimpleFSIndexOutput_new_writable in Hnew' by assumption.
  injection Hnew' as <- <-.
  destruct (flushBuffer_all_appending path requests Hrange [] _ _
              (SimpleFSIndexOutput_new_appending path w _ _ Hnew Hw))
    as (this & w' & Heq & Happ & _ & _ & Hfiles).
  exists this, w'. split; [exact Heq|].
  destruct Happ as (f & _ & _ & _ & _ & _ & Hd). split; [exact Hd|].
  intros p Hne. rewrite Hfiles by assumption. simpl. apply lookup_insert_ne. congruence.
Qed.

Lemma SimpleFSIndexOutput_flushes_concatenate_witness :
  exists this w',
    (out <- SimpleFSIndexOutput.new "out" ;; flushBuffer_all sample_requests out)
      sample_readonly_world = (Returns this, w') /\
    files (fs w') !! "out" = Some (concat (map request_bytes sample_requests)) /\
    (forall p, p <> "out" -> files (fs w') !! p = files (fs sample_readonly_world) !! p).
Proof.
  apply (SimpleFSIndexOutput_flushes_concatenate "out" sample_requests sample_readonly_world).
  - intros Hin. vm_compute in Hin. discriminate.
  - reflexivity.
Defined.

(** ** Writing, then reading back *)

Lemma slice_all (d : list byte) : slice d 0 (Z.of_nat (length d)) = d.
Proof. unfold slice. rewrite Nat2Z.id. simpl. apply firstn_all. Qed.

(** What an output stream has flushed, an input stream opened on the same
    path reads back.  A stream is opened for writing on a path that is
    not read-only, [flushBuffer] is called for each of a list of requests
    whose ranges lie within their buffers, and an input stream is then
    opened on the path; [n] is the number of bytes flushed.  Provided that
    - the chunk size of the input stream is a positive [int32_t], and [n]
      fits in one chunk or [n + chunkSize] does not overflow [int32_t];
    - the range [offset, offset + n) lies within the buffer of the fill,
      and within [int32_t];
    - the sentinels are negative, and [n] is an [int64_t];
    a fill of [n] bytes returns within [n] iterations, with the bytes
    flushed, in the order of the [flushBuffer] calls, in the buffer from
    index [offset] on, and the buffer unchanged elsewhere.  No [close] of
    the output stream is needed in between, since [flushBuffer] flushes
    the handle after writing. *)
Theorem SimpleFSDirectory_write_then_read `{ExternalConstants} (path : string)
    (requests : list flush_request) (bufferSize chunkSize : Z)
    (b : list byte) (offset : Z) (w : World) :
  FILE_EOF < 0 -> FILE_ERROR < 0 ->
  path ∉ readonly (fs w) ->
  forallb request_in_range requests = true ->
  int64_ok (Z.of_nat (length (concat (map request_bytes requests)))) ->
  0 < chunkSize <= INT32_MAX ->
  Z.of_nat (length (concat (map request_bytes requests))) <= chunkSize \/
    Z.of_nat (length (concat (map request_bytes requests))) + chunkSize <= INT32_MAX ->
  0 <= offset ->
  offset + Z.of_nat (length (concat (map request_bytes requests))) <= INT32_MAX ->
  offset + Z.of_nat (length (concat (map request_bytes requests))) <= Z.of_nat (length b) ->
  fst (write_then_read path requests bufferSize chunkSize
         (length (concat (map request_bytes requests))) b offset
         (Z.of_nat (length (concat (map request_bytes requests)))) w) =
    Returns (splice b offset (concat (map request_bytes requests))).
Proof.
  intros Heof Herr Hw Hrange Hsize Hchunk Hfit Hoff Hoffsum Hroom.
  set (data := concat (map request_bytes requests)) in *.
  unfold write_then_read, bind.
  destruct (SimpleFSIndexOutput.new path w) as [out w1] eqn:Hnew.
  pose proof Hnew as Hnew'. rewrite SimpleFSIndexOutput_new_writable in Hnew' by assumption.
  injection Hnew' as <- <-.
  destruct (flushBuffer_all_appending path requests Hrange [] _ _
              (SimpleFSIndexOutput_new_appending path w _ _ Hnew Hw))
    as (this & w' & Heq & Happ & _ & _ & _).
  rewrite Heq. destruct Happ as (f & _ & _ & _ & _ & _ & Hd).
  rewrite app_nil_l in Hd. fold data in Hd.
  destruct (SimpleFSIndexInput_new_present path bufferSize chunkSize w' data Hd)
    as (l & Heqnew & _).
  rewrite Heqnew.
  match goal with |- context [SimpleFSIndexInput.readInternal _ ?inp _ _ _ ?w2] =>
    destruct (readInternal_in_file (length data) inp l
                (InputFile.mk path 0 (Z.of_nat (length data)))
                data b offset (Z.of_nat (length data)) w2)
      as (w3 & Hfill & _ & _)
  end; simpl; try assumption; try reflexivity; try lia.
  - apply lookup_insert_eq.
  - unfold SimpleFSIndexInput.getFilePointer. simpl. lia.
  - rewrite Hfill.
    unfold SimpleFSIndexInput.getFilePointer. simpl.
    rewrite slice_all. f_equal. apply store_bytes_splice; assumption.
Qed.

Lemma SimpleFSDirectory_write_then_read_witness :
  fst (@write_then_read sample_constants "out" sample_requests 8 INT32_MAX
         (length (concat (map request_bytes sample_requests))) (replicate 4 Byte.x00) 1
         (Z.of_nat (length (concat (map request_bytes sample_requests))))
         sample_readonly_world) =
    Returns (splice (replicate 4 Byte.x00) 1 (concat (map request_bytes sample_requests))).
Proof.
  apply (@SimpleFSDirectory_write_then_read sample_constants "out" sample_requests 8 INT32_MAX
           (replicate 4 Byte.x00) 1 sample_readonly_world).
  - reflexivity.
  - reflexivity.
  - intros Hin. vm_compute in Hin. discriminate.
  - reflexivity.
  - vm_compute. split; discriminate.
  - vm_compute. split; [reflexivity|discriminate].
  - left. vm_compute. discriminate.
  - vm_compute. discriminate.
  - vm_compute. discriminate.
  - vm_compute. discriminate.
Defined.

(** ** Positioned writes *)


